(** * User service: profile edits and social sign-in reconciliation

    A shallow embedding of [src/services/user.js].  The service is a
    sequence of awaited calls against three collaborators (the provider
    clients, the record store behind [utils/queries] and the model's
    [save], and the avatar pipeline of [utils/files]); it is embedded in
    a state-and-exception monad over a [world] holding the users table
    and a trace of the collaborator calls performed so far.  The calls to
    the logger change neither the table nor the results and are left
    out. *)

From Stdlib Require Import ZArith String List.
From stdpp Require Import gmap strings list fin_maps.
Import ListNotations.

Local Open Scope string_scope.
Local Open Scope Z_scope.

(** ** JavaScript values and model instances *)

(** The attribute values the service handles: the scalars of JavaScript
    and dates.  Arrays and nested objects are not among them. *)
Inductive value : Type :=
  | VUndefined
  | VNull
  | VBool (b : bool)
  | VNumber (n : Z)
  | VString (s : string)
  | VDate (t : Z).

#[global] Instance value_eq_dec : EqDecision value.
Proof. solve_decision. Defined.

(** A model instance (and a plain object such as a patch) is a finite map
    from attribute names to values. *)
Abbreviation row := (gmap string value).

(** Property read [o.k]: a missing property reads as [undefined]. *)
Definition prop (o : row) (k : string) : value := default VUndefined (o !! k).

(** JavaScript truthiness, the operand of [!]. *)
Definition truthy (v : value) : bool :=
  match v with
  | VUndefined | VNull => false
  | VBool b => b
  | VNumber n => negb (n =? 0)
  | VString s => negb (String.eqb s "")
  | VDate _ => true
  end.

(** lodash [_.isEmpty]: a string is empty when its length is zero; any
    other value that is not a collection with elements is empty. *)
Definition isEmpty (v : value) : bool :=
  match v with
  | VString s => Nat.eqb (String.length s) 0
  | _ => true
  end.

(** lodash [_.pick]: the properties of [o] whose name is listed. *)
Definition pick (o : row) (keys : list string) : row :=
  filter (fun kv => bool_decide (fst kv ∈ keys)) o.

(** [instance.set(attrs)]: the listed attributes are overwritten. *)
Definition set (attrs : row) (o : row) : row := attrs ∪ o.

(** [new User({...})]: an instance that has not been persisted. *)
Definition new_User (attrs : list (string * value)) : row := list_to_map attrs.

(** ** Errors, collaborator calls and the world *)

Inductive error : Type :=
  | ApiError (code message : string)
  | RecordNotFound
  | ProviderError
  | DownloadError
  | UploadError
  | TypeError.

Inductive result (A : Type) : Type :=
  | Ok (a : A)
  | Throw (e : error).
Arguments Ok {A} a.
Arguments Throw {A} e.

Inductive event : Type :=
  | EvFind (k : string) (v : value)
  | EvGet (id : value)
  | EvSave (r : row)
  | EvDownload (url : value)
  | EvUpload (owner : row) (path : string).

Definition is_lookup (ev : event) : bool :=
  match ev with
  | EvFind _ _ => true
  | _ => false
  end.

Definition is_save (ev : event) : bool :=
  match ev with
  | EvSave _ => true
  | _ => false
  end.

(** The lookups, and the saves, among the calls of a trace. *)
Definition lookups (tr : list event) : list event := List.filter is_lookup tr.

Definition saves (tr : list event) : list event := List.filter is_save tr.

Record world : Type := World {
  db : list row;
  next_id : Z;
  trace : list event
}.

Definition M (A : Type) : Type := world -> result A * world.

Definition ret {A} (a : A) : M A := fun w => (Ok a, w).

Definition throw {A} (e : error) : M A := fun w => (Throw e, w).

Definition bind {A B} (m : M A) (k : A -> M B) : M B :=
  fun w =>
    match m w with
    | (Ok a, w') => k a w'
    | (Throw e, w') => (Throw e, w')
    end.

Notation "x <~ m ;; k" := (bind m (fun x => k))
  (at level 100, m at next level, right associativity).

Definition emit (e : event) (w : world) : world :=
  {| db := db w; next_id := next_id w; trace := trace w ++ [e] |}.

(** Awaiting a collaborator that either answers or rejects. *)
Definition await {A} (e : error) (o : option A) : M A :=
  match o with
  | Some a => ret a
  | None => throw e
  end.

(** Raw provider payloads, as the two flows read them. *)
Record google_profile : Type := GoogleProfile {
  g_id : value;
  g_email : value;
  g_given_name : value;
  g_family_name : value;
  g_picture : value
}.

(** [fb_picture] is [None] when [profile.picture] (or its [data]) is
    missing, in which case reading [profile.picture.data.url] throws. *)
Record facebook_profile : Type := FacebookProfile {
  fb_id : value;
  fb_email : value;
  fb_first_name : value;
  fb_last_name : value;
  fb_picture : option value
}.

(** The collaborators the service calls but does not define: the Google
    client ([googleApi.getOauth2], [oauth2.userinfo.get]), the Facebook
    client ([facebookApi.api('me', ...)]), the avatar pipeline of
    [utils/files], and the clock read by [new Date()].  [None] stands for
    a rejected call. *)
Record env : Type := Env {
  getOauth2 : string -> option string;
  userinfo_get : string -> option google_profile;
  facebook_api_me : string -> option facebook_profile;
  downloadFileFromUrl : value -> option string;
  uploadUserImage : row -> string -> option string;
  now : Z
}.

(** ** The record store *)

(** The storage/query layer ([utils/queries] and the model's [save]) is
    not part of the service file; the definitions of this section follow
    the interface the design gives for it. *)

(** Modelled from the spec: the filter [{k: v}] of [queries.find], absent
    from the service file; a row matches when its attribute [k] equals
    [v]. *)
Definition matches (k : string) (v : value) (r : row) : bool :=
  bool_decide (r !! k = Some v).

(** Modelled from the spec: the row [queries.find] answers, the first
    stored row that matches, or [null] when none does. *)
Definition find_row (k : string) (v : value) (rows : list row) : option row :=
  List.find (matches k v) rows.

(** Modelled from the spec: [queries.find(User, {k: v}, {require: false})];
    absence is an answer, not an error. *)
Definition queries_find (k : string) (v : value) : M (option row) :=
  fun w => (Ok (find_row k v (db w)), emit (EvFind k v) w).

(** Modelled from the spec: [queries.get(User, id)], which fails when no
    row has the id. *)
Definition queries_get (id : value) : M row :=
  fun w =>
    match find_row "id" id (db w) with
    | Some r => (Ok r, emit (EvGet id) w)
    | None => (Throw RecordNotFound, emit (EvGet id) w)
    end.

(** Modelled from the spec: the table after the row with id [i] has been
    written back as [r]. *)
Definition rewrite_row (i : value) (r : row) (rows : list row) : list row :=
  List.map (fun x => if matches "id" i x then r else x) rows.

(** Modelled from the spec: the model's [save], absent from the service
    file.  An instance without id is inserted under the next id; an
    instance with an id is written back over the row carrying that id. *)
Definition save (r : row) : M row :=
  fun w =>
    match r !! "id" with
    | Some i =>
        (Ok r, {| db := rewrite_row i r (db w);
                  next_id := next_id w;
                  trace := trace w ++ [EvSave r] |})
    | None =>
        let r' := <["id" := VNumber (next_id w)]> r in
        (Ok r', {| db := db w ++ [r'];
                   next_id := next_id w + 1;
                   trace := trace w ++ [EvSave r'] |})
    end.

(** ** The service *)

Section Service.

Context (E : env).

(** [files.downloadFileFromUrl] and [files.uploadUserImage]: the calls to
    the avatar pipeline, recorded in the trace; a rejection is thrown. *)
Definition files_downloadFileFromUrl (url : value) : M string :=
  fun w =>
    match downloadFileFromUrl E url with
    | Some path => (Ok path, emit (EvDownload url) w)
    | None => (Throw DownloadError, emit (EvDownload url) w)
    end.

Definition files_uploadUserImage (user : row) (path : string) : M string :=
  fun w =>
    match uploadUserImage E user path with
    | Some url => (Ok url, emit (EvUpload user path) w)
    | None => (Throw UploadError, emit (EvUpload user path) w)
    end.

Definition ALLOWED_ATTRS_TO_UPDATE : list string :=
  ["first_name"; "last_name"; "email"].

Definition validateUser (user : row) : M unit :=
  if negb (truthy (prop user "first_name")) || isEmpty (prop user "first_name")
  then throw (ApiError "first_name_required" "First name required")
  else if negb (truthy (prop user "last_name")) || isEmpty (prop user "last_name")
  then throw (ApiError "last_name_required" "Last name required")
  else if negb (truthy (prop user "email")) || isEmpty (prop user "email")
  then throw (ApiError "email_required" "Email required")
  else ret tt.

(** The [options] of [getUser] only select what the query layer loads. *)
Definition getUser (id : value) : M row := queries_get id.

Definition updateUser (user data : row) : M row :=
  let attrs := pick data ALLOWED_ATTRS_TO_UPDATE in
  loadedUser <~ queries_get (prop user "id") ;;
  let loadedUser := set attrs loadedUser in
  _ <~ validateUser loadedUser ;;
  save loadedUser.

Definition updateUserImage (user : row) (imagePath : string) : M row :=
  loadedUser <~ queries_get (prop user "id") ;;
  imageUrl <~ files_uploadUserImage loadedUser imagePath ;;
  let loadedUser := <["image_url" := VString imageUrl]> loadedUser in
  save loadedUser.

Definition signInWithGoogle (authCode : string) : M row :=
  oauth2 <~ await ProviderError (getOauth2 E authCode) ;;
  profile <~ await ProviderError (userinfo_get E oauth2) ;;
  user <~ queries_find "email" (g_email profile) ;;
  match user with
  | Some user =>
      let user := set {["google_id" := g_id profile]} user in
      save user
  | None =>
      user <~ queries_find "google_id" (g_id profile) ;;
      match user with
      | Some user => ret user
      | None =>
          let user := new_User [("first_name", g_given_name profile);
                                ("last_name", g_family_name profile);
                                ("email", g_email profile);
                                ("google_id", g_id profile);
                                ("registration_date", VDate (now E))] in
          imagePath <~ files_downloadFileFromUrl (g_picture profile) ;;
          imageUrl <~ files_uploadUserImage user imagePath ;;
          let user := set {["image_url" := VString imageUrl]} user in
          user <~ save user ;;
          ret user
      end
  end.

Definition signInWithFacebook (accessToken : string) : M row :=
  profile <~ await ProviderError (facebook_api_me E accessToken) ;;
  user <~ queries_find "email" (fb_email profile) ;;
  match user with
  | Some user =>
      let user := set {["facebook_id" := fb_id profile]} user in
      save user
  | None =>
      user <~ queries_find "facebook_id" (fb_id profile) ;;
      match user with
      | Some user => ret user
      | None =>
          let user := new_User [("first_name", fb_first_name profile);
                                ("last_name", fb_last_name profile);
                                ("email", fb_email profile);
                                ("facebook_id", fb_id profile);
                                ("registration_date", VDate (now E))] in
          url <~ await TypeError (fb_picture profile) ;;
          imagePath <~ files_downloadFileFromUrl url ;;
          imageUrl <~ files_uploadUserImage user imagePath ;;
          let user := set {["image_url" := VString imageUrl]} user in
          user <~ save user ;;
          ret user
      end
  end.

End Service.

(** ** The reconciliation algorithm as the design describes it

    A provider tag selects the external-id attribute; a canonical profile
    is the provider-independent shape of a payload.  [signIn] sequences
    resolve, then link or materialize.  The two flows of the service are
    shown below to be its two instances. *)

Inductive provider : Type := Google | Facebook.

Definition external_id_key (t : provider) : string :=
  match t with
  | Google => "google_id"
  | Facebook => "facebook_id"
  end.

Record canonical_profile : Type := Canonical {
  c_external_id : value;
  c_email : value;
  c_given_name : value;
  c_family_name : value;
  c_avatar_source : option value
}.

Definition normalize_google (p : google_profile) : canonical_profile :=
  Canonical (g_id p) (g_email p) (g_given_name p) (g_family_name p)
            (Some (g_picture p)).

Definition normalize_facebook (p : facebook_profile) : canonical_profile :=
  Canonical (fb_id p) (fb_email p) (fb_first_name p) (fb_last_name p)
            (fb_picture p).

Inductive Match : Type :=
  | FoundByEmail (a : row)
  | FoundByExternalId (a : row)
  | NotFound.

Definition resolve (t : provider) (P : canonical_profile) : M Match :=
  a <~ queries_find "email" (c_email P) ;;
  match a with
  | Some a => ret (FoundByEmail a)
  | None =>
      b <~ queries_find (external_id_key t) (c_external_id P) ;;
      match b with
      | Some b => ret (FoundByExternalId b)
      | None => ret NotFound
      end
  end.

Definition link (t : provider) (P : canonical_profile) (a : row) : M row :=
  save (set {[external_id_key t := c_external_id P]} a).

Definition unsaved_account (E : env) (t : provider) (P : canonical_profile) : row :=
  new_User [("first_name", c_given_name P);
            ("last_name", c_family_name P);
            ("email", c_email P);
            (external_id_key t, c_external_id P);
            ("registration_date", VDate (now E))].

Definition materialize (E : env) (t : provider) (P : canonical_profile) : M row :=
  url <~ await TypeError (c_avatar_source P) ;;
  imagePath <~ files_downloadFileFromUrl E url ;;
  imageUrl <~ files_uploadUserImage E (unsaved_account E t P) imagePath ;;
  save (set {["image_url" := VString imageUrl]} (unsaved_account E t P)).

Definition signIn (E : env) (t : provider) (P : canonical_profile) : M row :=
  m <~ resolve t P ;;
  match m with
  | FoundByEmail a => link t P a
  | FoundByExternalId b => ret b
  | NotFound => materialize E t P
  end.

(** ** Well-formed stores *)

(** Every stored row carries a numeric id below the next id to assign. *)
Definition has_id_below (bound : Z) (r : row) : Prop :=
  match r !! "id" with
  | Some (VNumber n) => n < bound
  | _ => False
  end.

#[global] Instance has_id_below_dec bound r : Decision (has_id_below bound r).
Proof.
  unfold has_id_below. destruct (r !! "id") as [[]|]; apply _.
Defined.

Definition wf_world (w : world) : Prop :=
  Forall (has_id_below (next_id w)) (db w).

(** ** Sign-in runs

    [signs_in E t P flow]: [flow] is the service's sign-in for provider
    [t], called with evidence that the provider client exchanges for a
    payload whose canonical shape is [P]. *)
Inductive signs_in (E : env) : provider -> canonical_profile -> M row -> Prop :=
  | signs_in_google code tok p :
      getOauth2 E code = Some tok ->
      userinfo_get E tok = Some p ->
      signs_in E Google (normalize_google p) (signInWithGoogle E code)
  | signs_in_facebook tok p :
      facebook_api_me E tok = Some p ->
      signs_in E Facebook (normalize_facebook p) (signInWithFacebook E tok).

(** ** Outcomes of the creation branch and of validation *)

(** The account the creation branch persists when ingestion succeeds. *)
Definition created_account (E : env) (t : provider) (P : canonical_profile)
    (url : string) (id : Z) : row :=
  <["id" := VNumber id]>
    (<["image_url" := VString url]> (unsaved_account E t P)).

(** Ingestion fails when the payload has no picture, the download is
    rejected or the upload is rejected. *)
Definition ingestion_fails (E : env) (t : provider) (P : canonical_profile) : Prop :=
  match c_avatar_source P with
  | None => True
  | Some src =>
      match downloadFileFromUrl E src with
      | None => True
      | Some path => uploadUserImage E (unsaved_account E t P) path = None
      end
  end.

(** A field is absent when the instance has no such attribute or holds
    [undefined] or [null] there, and empty when it holds the empty
    string. *)
Definition absent_or_empty (o : option value) : Prop :=
  o = None \/ o = Some VUndefined \/ o = Some VNull \/ o = Some (VString "").

Definition non_empty_string (o : option value) : Prop :=
  exists s, o = Some (VString s) /\ s ≠ "".

(** A field that holds no text: it is missing, [undefined], [null], the
    empty string, or a number, a boolean or a date. *)
Definition holds_no_text (o : option value) : Prop :=
  match o with
  | None => True
  | Some VUndefined => True
  | Some VNull => True
  | Some (VBool _) => True
  | Some (VNumber _) => True
  | Some (VDate _) => True
  | Some (VString s) => s = ""
  end.

(** ** Exchanging the two providers *)

(** Exchanging the roles of the two providers: the two external-id
    attributes trade places in every row, lookup and save. *)
Definition swap_key (k : string) : string :=
  if decide (k = "google_id") then "facebook_id"
  else if decide (k = "facebook_id") then "google_id"
  else k.

Definition swap_provider (t : provider) : provider :=
  match t with
  | Google => Facebook
  | Facebook => Google
  end.

Definition swap_row (r : row) : row := kmap swap_key r.

Definition swap_event (ev : event) : event :=
  match ev with
  | EvFind k v => EvFind (swap_key k) v
  | EvGet id => EvGet id
  | EvSave r => EvSave (swap_row r)
  | EvDownload url => EvDownload url
  | EvUpload owner path => EvUpload (swap_row owner) path
  end.

Definition swap_world (w : world) : world :=
  {| db := List.map swap_row (db w);
     next_id := next_id w;
     trace := List.map swap_event (trace w) |}.

Definition swap_run (x : result row * world) : result row * world :=
  (match fst x with
   | Ok r => Ok (swap_row r)
   | Throw e => Throw e
   end,
   swap_world (snd x)).

(** ** Statements of the design that the code does not meet as written *)

(** C2 as stated, at one run: the run returns a new account, the table
    grows by exactly that account, and its avatar URL is non-empty. *)
Definition creates_account_with_avatar (flow : M row) (w : world) : Prop :=
  exists acct : row,
    fst (flow w) = Ok acct /\
    db (snd (flow w)) = (db w ++ [acct])%list /\
    isEmpty (prop acct "image_url") = false.

(** The calls a run adds to the trace it started from. *)
Definition calls_of (w w' : world) : list event :=
  List.skipn (length (trace w)) (trace w').

Definition same_up_to_external_id (r r' : row) : Prop :=
  forall k, k ≠ "google_id" -> k ≠ "facebook_id" -> r !! k = r' !! k.

(** C4 as stated, at one run: an account whose external id for the
    signing-in provider is set holds the same value after the run. *)
Definition external_id_never_overwritten (t : provider) (flow : M row)
    (w : world) : Prop :=
  forall i (a a' : row) g,
    find_row "id" i (db w) = Some a ->
    a !! external_id_key t = Some g ->
    find_row "id" i (db (snd (flow w))) = Some a' ->
    a' !! external_id_key t = Some g.

(** C10 as stated, at one store: run from the same world, the two flows
    make the same lookups up to the provider's key, take the same branch
    (both or neither add an account) and answer accounts that agree on
    every attribute other than the two external ids. *)
Definition flows_agree_on_same_store (E : env) (code token : string)
    (w : world) : Prop :=
  let g := signInWithGoogle E code w in
  let f := signInWithFacebook E token w in
  lookups (calls_of w (snd f)) = List.map swap_event (lookups (calls_of w (snd g))) /\
  length (db (snd f)) = length (db (snd g)) /\
  match fst g, fst f with
  | Ok r, Ok r' => same_up_to_external_id r r'
  | Throw e, Throw e' => e = e'
  | _, _ => False
  end.

(** ** Stores with unique ids *)

(** The id attributes of the rows of a table, in table order. *)
Definition row_ids (rows : list row) : list (option value) :=
  List.map (fun r : row => r !! "id") rows.

(** A store is in order when every row carries a numeric id below the
    next id to assign and no two rows carry the same id. *)
Definition store_ok (w : world) : Prop :=
  wf_world w /\ NoDup (row_ids (db w)).

(** The calls to the avatar pipeline among the calls of a trace. *)
Definition is_ingest (ev : event) : bool :=
  match ev with
  | EvDownload _ | EvUpload _ _ => true
  | _ => false
  end.

(** ** Sample stores, payloads and collaborators *)

(** A fixture: provider clients that answer one payload each, a pipeline
    whose two steps succeed or fail as told, and a small users table. *)
Definition fixture_env (gp : google_profile) (fp : facebook_profile)
    (path : option string) (url : option string) : env :=
  {| getOauth2 := fun code => Some code;
     userinfo_get := fun _ => Some gp;
     facebook_api_me := fun _ => Some fp;
     downloadFileFromUrl := fun _ => path;
     uploadUserImage := fun _ _ => url;
     now := 1700000000 |}.

Definition alice : row :=
  list_to_map [("id", VNumber 1); ("first_name", VString "Alice");
               ("last_name", VString "Doe"); ("email", VString "a@x.com");
               ("google_id", VString "g1");
               ("image_url", VString "http://cdn/1");
               ("registration_date", VDate 1600000000)].

Definition bob : row :=
  list_to_map [("id", VNumber 2); ("first_name", VString "Bob");
               ("last_name", VString "Roe"); ("email", VString "b@x.com");
               ("google_id", VString "g7");
               ("image_url", VString "http://cdn/2");
               ("registration_date", VDate 1600000500)].

Definition fixture_world : world :=
  {| db := [alice; bob]; next_id := 3; trace := [] |}.

(** Alice's email with Bob's Google id. *)
Definition crossed_google : google_profile :=
  GoogleProfile (VString "g7") (VString "a@x.com")
                (VString "Al") (VString "D") (VString "http://img").

Definition any_facebook : facebook_profile :=
  FacebookProfile (VString "f1") (VString "f@x.com")
                  (VString "F") (VString "B") (Some (VString "http://img")).

Definition crossed_env : env :=
  fixture_env crossed_google any_facebook (Some "/tmp/img") (Some "http://cdn/3").

(** Bob's Google id under an email nobody has. *)
Definition moved_google : google_profile :=
  GoogleProfile (VString "g7") (VString "bob@new.com")
                (VString "Bob") (VString "Roe") (VString "http://img").

(** The Facebook payload with the canonical content of [moved_google]. *)
Definition moved_facebook : facebook_profile :=
  FacebookProfile (VString "g7") (VString "bob@new.com")
                  (VString "Bob") (VString "Roe") (Some (VString "http://img")).

Definition moved_env : env :=
  fixture_env moved_google any_facebook None None.

Definition twin_env : env :=
  fixture_env moved_google moved_facebook (Some "/tmp/img") (Some "http://cdn/3").

(** Alice's email under a Facebook id. *)
Definition alice_facebook : facebook_profile :=
  FacebookProfile (VString "f9") (VString "a@x.com")
                  (VString "Alicia") (VString "D.")
                  (Some (VString "http://img/new")).

Definition alice_facebook_env : env :=
  fixture_env crossed_google alice_facebook None None.

(** Alice's email under a Google id other than the one she is linked to. *)
Definition relinking_google : google_profile :=
  GoogleProfile (VString "g2") (VString "a@x.com")
                (VString "Alice") (VString "Doe") (VString "http://img").

Definition relinking_env : env :=
  fixture_env relinking_google any_facebook None None.

(** The second scenario of the design's test list. *)
Definition newcomer_google : google_profile :=
  GoogleProfile (VString "g2") (VString "new@x.com")
                (VString "A") (VString "B") (VString "http://img").

Definition newcomer_env : env :=
  fixture_env newcomer_google any_facebook (Some "/tmp/img") (Some "http://cdn/3").

Definition failing_download_env : env :=
  fixture_env newcomer_google any_facebook None (Some "http://cdn/3").

(** Provider clients that reject every call. *)
Definition offline_env : env :=
  {| getOauth2 := fun _ => None;
     userinfo_get := fun _ => None;
     facebook_api_me := fun _ => None;
     downloadFileFromUrl := fun _ => None;
     uploadUserImage := fun _ _ => None;
     now := 1700000000 |}.

(** The newcomer of [newcomer_google] after an email change at Google. *)
Definition renamed_newcomer_google : google_profile :=
  GoogleProfile (VString "g2") (VString "renamed@x.com")
                (VString "A") (VString "B") (VString "http://img").

Definition renamed_newcomer_env : env :=
  fixture_env renamed_newcomer_google any_facebook None None.



(** Alice signing in with the Google id she is linked to. *)
Definition alice_google : google_profile :=
  GoogleProfile (VString "g1") (VString "a@x.com")
                (VString "Alice") (VString "Doe") (VString "http://img").

Definition alice_google_env : env :=
  fixture_env alice_google any_facebook None None.

Definition role_only : row := {["role" := VString "admin"]}.

(** A pipeline whose upload answers the empty URL. *)
Definition empty_url_env : env :=
  fixture_env newcomer_google any_facebook (Some "/tmp/img") (Some "").

(** A Google payload whose [picture] is [undefined], and a Facebook
    payload without [picture] object, with a pipeline that rejects the
    download. *)
Definition pictureless_google : google_profile :=
  GoogleProfile (VString "g4") (VString "nopic@x.com")
                (VString "N") (VString "P") VUndefined.

Definition pictureless_facebook : facebook_profile :=
  FacebookProfile (VString "f4") (VString "nopic@x.com")
                  (VString "N") (VString "P") None.

Definition pictureless_env : env :=
  fixture_env pictureless_google pictureless_facebook None None.

(** Alice with a number where her first name was. *)
Definition numbered_alice : row := <["first_name" := VNumber 5]> alice.

Definition empty_first_name : row := {["first_name" := VString ""]}.

Definition role_patch : row :=
  <["role" := VString "admin"]> {["first_name" := VString "Alicia"]}.

(** * Supporting lemmas *)

(** ** The flows are instances of [signIn] *)

Ltac run :=
  unfold bind, await, queries_find, ret, throw;
  cbn [emit db next_id trace].

Lemma signInWithGoogle_signIn E code tok p w :
  getOauth2 E code = Some tok ->
  userinfo_get E tok = Some p ->
  signInWithGoogle E code w = signIn E Google (normalize_google p) w.
Proof.
  intros Htok Hp.
  unfold signInWithGoogle, signIn, resolve, link, materialize, unsaved_account.
  run. rewrite Htok. run. rewrite Hp. run.
  cbn [normalize_google c_email c_external_id external_id_key c_avatar_source
       c_given_name c_family_name].
  destruct (find_row "email" (g_email p) (db w)); run; [reflexivity|].
  destruct (find_row "google_id" (g_id p) (db w)); run; [reflexivity|].
  destruct (files_downloadFileFromUrl E (g_picture p) _) as [[path|e] w1]; [|reflexivity].
  destruct (files_uploadUserImage E _ path w1) as [[url|e] w2]; [|reflexivity].
  destruct (save _ w2) as [[r|e] w3]; reflexivity.
Qed.

Lemma signInWithFacebook_signIn E tok p w :
  facebook_api_me E tok = Some p ->
  signInWithFacebook E tok w = signIn E Facebook (normalize_facebook p) w.
Proof.
  intros Hp.
  unfold signInWithFacebook, signIn, resolve, link, materialize, unsaved_account.
  run. rewrite Hp. run.
  cbn [normalize_facebook c_email c_external_id external_id_key c_avatar_source
       c_given_name c_family_name].
  destruct (find_row "email" (fb_email p) (db w)); run; [reflexivity|].
  destruct (find_row "facebook_id" (fb_id p) (db w)); run; [reflexivity|].
  destruct (fb_picture p) as [u|]; run; [|reflexivity].
  destruct (files_downloadFileFromUrl E u _) as [[path|e] w1]; [|reflexivity].
  destruct (files_uploadUserImage E _ path w1) as [[url|e] w2]; [|reflexivity].
  destruct (save _ w2) as [[r|e] w3]; reflexivity.
Qed.

(** ** Facts about the record store *)

Lemma matches_true k v (r : row) : matches k v r = true <-> r !! k = Some v.
Proof. unfold matches. apply bool_decide_eq_true. Qed.

Lemma matches_false k v (r : row) : matches k v r = false <-> r !! k ≠ Some v.
Proof. unfold matches. apply bool_decide_eq_false. Qed.

Lemma find_row_Some k v rows (r : row) :
  find_row k v rows = Some r -> r ∈ rows /\ r !! k = Some v.
Proof.
  unfold find_row. intros H. apply find_some in H as [Hin Hm].
  split; [by apply list_elem_of_In | by apply matches_true].
Qed.

Lemma find_row_None k v rows :
  find_row k v rows = None -> forall r : row, r ∈ rows -> r !! k ≠ Some v.
Proof.
  unfold find_row. intros H r Hin. apply matches_false.
  apply (find_none _ _ H). by apply list_elem_of_In.
Qed.

Lemma find_row_snoc k v rows (r : row) :
  find_row k v (rows ++ [r]) =
    match find_row k v rows with
    | Some a => Some a
    | None => if matches k v r then Some r else None
    end.
Proof.
  unfold find_row. induction rows as [|x rows IH]; cbn [app find].
  - reflexivity.
  - destruct (matches k v x); [reflexivity | exact IH].
Qed.

(** Rewriting the row with id [i] leaves every other id where it was and
    puts the new row at [i]. *)
Lemma find_id_rewrite_row i j (r : row) rows :
  r !! "id" = Some i ->
  find_row "id" j (rewrite_row i r rows) =
    if decide (j = i) then
      match find_row "id" i rows with Some _ => Some r | None => None end
    else find_row "id" j rows.
Proof.
  intros Hr. unfold find_row, rewrite_row.
  destruct (decide (j = i)) as [->|Hj].
  - induction rows as [|x rows IH]; cbn [map find]; [done|].
    destruct (matches "id" i x) eqn:Hx.
    + by rewrite (proj2 (matches_true _ _ _) Hr).
    + by rewrite Hx.
  - induction rows as [|x rows IH]; cbn [map find]; [done|].
    destruct (matches "id" i x) eqn:Hx.
    + apply matches_true in Hx.
      assert (matches "id" j r = false) as ->
        by (apply matches_false; rewrite Hr; congruence).
      assert (matches "id" j x = false) as ->
        by (apply matches_false; rewrite Hx; congruence).
      exact IH.
    + destruct (matches "id" j x); [reflexivity | exact IH].
Qed.

Lemma rewrite_row_length i (r : row) rows :
  length (rewrite_row i r rows) = length rows.
Proof. unfold rewrite_row. by rewrite length_map. Qed.

(** Rewriting twice with the same row is rewriting once. *)
Lemma rewrite_row_idem i (r : row) rows :
  r !! "id" = Some i ->
  rewrite_row i r (rewrite_row i r rows) = rewrite_row i r rows.
Proof.
  intros Hr. unfold rewrite_row. rewrite map_map. apply map_ext.
  intros x. destruct (matches "id" i x) eqn:Hx; [|by rewrite Hx].
  by rewrite (proj2 (matches_true _ _ _) Hr).
Qed.

(** No stored row carries an id at or above the next id. *)
Lemma rewrite_row_fresh bound (r : row) rows :
  Forall (has_id_below bound) rows ->
  rewrite_row (VNumber bound) r rows = rows.
Proof.
  unfold rewrite_row. induction 1 as [|x rows Hx _ IH]; cbn [map]; [done|].
  rewrite IH. f_equal.
  assert (matches "id" (VNumber bound) x = false) as ->; [|done].
  apply matches_false. unfold has_id_below in Hx.
  destruct (x !! "id") as [[]|]; try done. intros [= ->]. lia.
Qed.

(** The row an email lookup finds is still the one found after it has
    been rewritten with its email kept. *)
Lemma find_email_rewrite_row e i (a a' : row) rows :
  find_row "email" e rows = Some a ->
  a !! "id" = Some i ->
  a' !! "email" = Some e ->
  find_row "email" e (rewrite_row i a' rows) = Some a'.
Proof.
  intros Hf Hi He. unfold find_row, rewrite_row in *.
  induction rows as [|x rows IH]; cbn [map find] in *; [done|].
  destruct (matches "id" i x) eqn:Hx.
  - by rewrite (proj2 (matches_true _ _ _) He).
  - destruct (matches "email" e x) eqn:Hm.
    + injection Hf as ->. apply matches_false in Hx. congruence.
    + by apply IH.
Qed.

Lemma set_singleton k v (o : row) : set {[k := v]} o = <[k := v]> o.
Proof. unfold set. symmetry. apply insert_union_singleton_l. Qed.

(** ** The three branches of [signIn] *)

Section Branches.

Context (E : env) (t : provider) (P : canonical_profile) (w : world).

Let w1 := emit (EvFind "email" (c_email P)) w.
Let w2 := emit (EvFind (external_id_key t) (c_external_id P)) w1.

Lemma signIn_found_by_email a :
  find_row "email" (c_email P) (db w) = Some a ->
  signIn E t P w = link t P a w1.
Proof.
  intros H. unfold signIn, resolve. run. by rewrite H.
Qed.

Lemma signIn_found_by_external_id b :
  find_row "email" (c_email P) (db w) = None ->
  find_row (external_id_key t) (c_external_id P) (db w) = Some b ->
  signIn E t P w = (Ok b, w2).
Proof.
  intros H1 H2. unfold signIn, resolve. run. rewrite H1. run. by rewrite H2.
Qed.

Lemma signIn_not_found :
  find_row "email" (c_email P) (db w) = None ->
  find_row (external_id_key t) (c_external_id P) (db w) = None ->
  signIn E t P w = materialize E t P w2.
Proof.
  intros H1 H2. unfold signIn, resolve. run. rewrite H1. run. by rewrite H2.
Qed.

End Branches.

Lemma link_existing t P (a : row) i w :
  a !! "id" = Some i ->
  link t P a w =
    let a' := <[external_id_key t := c_external_id P]> a in
    (Ok a', {| db := rewrite_row i a' (db w);
               next_id := next_id w;
               trace := trace w ++ [EvSave a'] |}).
Proof.
  intros Hi. unfold link, save. rewrite set_singleton.
  rewrite lookup_insert_ne; [by rewrite Hi|].
  by destruct t.
Qed.

Lemma unsaved_account_no_id E t P url :
  (<["image_url" := VString url]> (unsaved_account E t P)) !! "id" = None.
Proof.
  unfold unsaved_account, new_User. destruct t; by simplify_map_eq.
Qed.

Lemma materialize_ok E t P w src path url :
  c_avatar_source P = Some src ->
  downloadFileFromUrl E src = Some path ->
  uploadUserImage E (unsaved_account E t P) path = Some url ->
  materialize E t P w =
    let acct := created_account E t P url (next_id w) in
    (Ok acct, {| db := db w ++ [acct];
                 next_id := next_id w + 1;
                 trace := trace w ++ [EvDownload src;
                                      EvUpload (unsaved_account E t P) path;
                                      EvSave acct] |}).
Proof.
  intros Hs Hd Hu.
  unfold materialize, files_downloadFileFromUrl, files_uploadUserImage.
  run. rewrite Hs. run. rewrite Hd, Hu. unfold save.
  rewrite set_singleton, unsaved_account_no_id.
  cbn [emit db next_id trace]. by rewrite <- !app_assoc.
Qed.

Lemma materialize_fails E t P w :
  ingestion_fails E t P ->
  exists e w',
    materialize E t P w = (Throw e, w') /\
    db w' = db w /\ next_id w' = next_id w /\
    exists ingest : list event,
      trace w' = (trace w ++ ingest)%list /\
      Forall (fun ev => is_save ev = false /\ is_lookup ev = false) ingest.
Proof.
  unfold ingestion_fails.
  unfold materialize, files_downloadFileFromUrl, files_uploadUserImage. run.
  destruct (c_avatar_source P) as [src|]; run.
  - destruct (downloadFileFromUrl E src) as [path|]; run.
    + intros ->. eexists _, _. split; [reflexivity|].
      cbn [emit db next_id trace]. repeat split.
      exists [EvDownload src; EvUpload (unsaved_account E t P) path].
      split; [by rewrite <- app_assoc|]. by repeat constructor.
    + intros _. eexists _, _. split; [reflexivity|].
      cbn [emit db next_id trace]. repeat split.
      exists [EvDownload src]. split; [done|]. by repeat constructor.
  - intros _. eexists _, _. split; [reflexivity|]. repeat split.
    exists []. split; [by rewrite app_nil_r|]. constructor.
Qed.

Lemma ingest_no_lookup (evs : list event) :
  Forall (fun ev => is_save ev = false /\ is_lookup ev = false) evs ->
  lookups evs = [] /\ saves evs = [].
Proof.
  unfold lookups, saves.
  induction 1 as [|ev evs [Hs Hl] _ [IHl IHs]]; [done|].
  cbn [List.filter]. by rewrite Hs, Hl.
Qed.

Lemma lookups_app tr1 tr2 : lookups (tr1 ++ tr2) = (lookups tr1 ++ lookups tr2)%list.
Proof. apply List.filter_app. Qed.

Lemma saves_app tr1 tr2 : saves (tr1 ++ tr2) = (saves tr1 ++ saves tr2)%list.
Proof. apply List.filter_app. Qed.

(** Ingestion either succeeds at each of its steps or fails. *)
Lemma ingestion_cases E t P :
  (exists src path url,
     c_avatar_source P = Some src /\
     downloadFileFromUrl E src = Some path /\
     uploadUserImage E (unsaved_account E t P) path = Some url) \/
  ingestion_fails E t P.
Proof.
  unfold ingestion_fails.
  destruct (c_avatar_source P) as [src|] eqn:Hs; [|by right].
  destruct (downloadFileFromUrl E src) as [path|] eqn:Hd; [|by right].
  destruct (uploadUserImage E (unsaved_account E t P) path) as [url|] eqn:Hu;
    [|by right].
  left. by exists src, path, url.
Qed.

Lemma materialize_grows E t P w :
  exists tail : list row,
    db (snd (materialize E t P w)) = (db w ++ tail)%list /\
    (forall r, fst (materialize E t P w) = Ok r -> tail = [r]) /\
    (forall e, fst (materialize E t P w) = Throw e -> tail = []).
Proof.
  destruct (ingestion_cases E t P) as [(src & path & url & Hs & Hd & Hu)|Hf].
  - rewrite (materialize_ok _ _ _ _ _ _ _ Hs Hd Hu). cbn [fst snd db].
    eexists. split; [reflexivity|]. split; [by intros r [= <-] | done].
  - destruct (materialize_fails E t P w Hf) as (e & w' & -> & Hdb & _).
    exists []. cbn [fst snd]. by rewrite app_nil_r.
Qed.

Lemma find_row_is_Some k v rows (r : row) :
  r ∈ rows -> r !! k = Some v -> is_Some (find_row k v rows).
Proof.
  intros Hin Hr. destruct (find_row k v rows) eqn:Hf; [by eexists|].
  by destruct (find_row_None _ _ _ Hf r Hin).
Qed.

Lemma wf_world_row_id w (r : row) :
  wf_world w -> r ∈ db w ->
  exists n, r !! "id" = Some (VNumber n) /\ n < next_id w.
Proof.
  unfold wf_world. rewrite Forall_forall. intros Hwf Hin.
  specialize (Hwf r Hin). unfold has_id_below in Hwf.
  destruct (r !! "id") as [[]|]; try done. by eexists.
Qed.

Lemma signs_in_signIn E t P flow :
  signs_in E t P flow -> forall w, flow w = signIn E t P w.
Proof.
  intros [code tok p Htok Hp | tok p Hp] w.
  - by apply signInWithGoogle_signIn with tok.
  - by apply signInWithFacebook_signIn.
Qed.

Lemma fixture_world_wf : wf_world fixture_world.
Proof. repeat constructor. Qed.

Lemma find_row_app_l k v rows tail (a : row) :
  find_row k v rows = Some a -> find_row k v (rows ++ tail) = Some a.
Proof.
  unfold find_row. induction rows as [|x rows IH]; cbn [app find]; [done|].
  destruct (matches k v x); [done | exact IH].
Qed.

Lemma created_account_lookup E t P url n :
  created_account E t P url n !! "id" = Some (VNumber n) /\
  created_account E t P url n !! "email" = Some (c_email P) /\
  created_account E t P url n !! external_id_key t = Some (c_external_id P).
Proof.
  unfold created_account, unsaved_account, new_User.
  destruct t; cbn [external_id_key list_to_map foldr fst snd];
    by simplify_map_eq.
Qed.

(** ** Profile edits *)

Lemma pick_lookup (o : row) keys k :
  pick o keys !! k = if decide (k ∈ keys) then o !! k else None.
Proof.
  unfold pick. rewrite map_lookup_filter.
  destruct (o !! k) as [v|]; cbn; [|by case_decide].
  case_decide as Hk.
  - rewrite option_guard_True; [done|]. cbn. by apply bool_decide_pack.
  - rewrite option_guard_False; [done|]. cbn. by intros ?%bool_decide_unpack.
Qed.

Lemma set_lookup (attrs o : row) k :
  set attrs o !! k = match attrs !! k with Some v => Some v | None => o !! k end.
Proof.
  unfold set. rewrite lookup_union.
  by destruct (attrs !! k), (o !! k).
Qed.

Lemma absent_or_empty_rejected (u : row) k :
  absent_or_empty (u !! k) ->
  negb (truthy (prop u k)) || isEmpty (prop u k) = true.
Proof.
  unfold prop. by intros [-> | [-> | [-> | ->]]].
Qed.

Lemma non_empty_string_accepted (u : row) k :
  non_empty_string (u !! k) ->
  negb (truthy (prop u k)) || isEmpty (prop u k) = false.
Proof.
  unfold prop. intros (s & -> & Hs). by destruct s.
Qed.

(** ** Exchanging the two providers *)

Lemma swap_key_involutive k : swap_key (swap_key k) = k.
Proof.
  unfold swap_key. repeat (case_decide; simplify_eq); done.
Qed.

#[global] Instance swap_key_inj : Inj (=) (=) swap_key.
Proof.
  intros k1 k2 H. apply (f_equal swap_key) in H.
  by rewrite !swap_key_involutive in H.
Qed.

Lemma swap_key_external_id t :
  swap_key (external_id_key t) = external_id_key (swap_provider t).
Proof. by destruct t. Qed.

Lemma swap_row_lookup (r : row) k : swap_row r !! swap_key k = r !! k.
Proof. unfold swap_row. apply (lookup_kmap swap_key). Qed.

Lemma swap_row_insert (r : row) k v :
  swap_row (<[k := v]> r) = <[swap_key k := v]> (swap_row r).
Proof. unfold swap_row. apply (kmap_insert swap_key). Qed.

Lemma matches_swap k v (r : row) :
  matches (swap_key k) v (swap_row r) = matches k v r.
Proof. unfold matches. by rewrite swap_row_lookup. Qed.

Lemma find_row_swap k v rows :
  find_row (swap_key k) v (List.map swap_row rows) =
    option_map swap_row (find_row k v rows).
Proof.
  unfold find_row. induction rows as [|x rows IH]; cbn [map find]; [done|].
  rewrite matches_swap. by destruct (matches k v x).
Qed.

Lemma rewrite_row_swap i (r : row) rows :
  rewrite_row i (swap_row r) (List.map swap_row rows) =
    List.map swap_row (rewrite_row i r rows).
Proof.
  unfold rewrite_row. rewrite !map_map. apply map_ext. intros x.
  assert (matches "id" i (swap_row x) = matches "id" i x) as ->
    by apply (matches_swap "id").
  by destruct (matches "id" i x).
Qed.

Lemma save_swap (r : row) w :
  save (swap_row r) (swap_world w) = swap_run (save r w).
Proof.
  unfold save, swap_run.
  assert (swap_row r !! "id" = r !! "id") as ->
    by apply (swap_row_lookup r "id").
  destruct (r !! "id") as [i|]; cbn [fst snd].
  - unfold swap_world. cbn [db next_id trace].
    by rewrite rewrite_row_swap, map_app.
  - unfold swap_world. cbn [db next_id trace].
    rewrite !map_app. cbn [map swap_event].
    rewrite (swap_row_insert r "id").
    by change (swap_key "id") with "id".
Qed.

Lemma unsaved_account_swap E t P :
  swap_row (unsaved_account E t P) = unsaved_account E (swap_provider t) P.
Proof.
  unfold unsaved_account, new_User. cbn [list_to_map foldr fst snd].
  rewrite !swap_row_insert, swap_key_external_id.
  unfold swap_row. by rewrite kmap_empty.
Qed.

Lemma emit_swap ev w : emit (swap_event ev) (swap_world w) = swap_world (emit ev w).
Proof. unfold emit, swap_world. cbn [db next_id trace]. by rewrite map_app. Qed.

(** The external-id attribute is looked up, linked and created the same
    way whichever provider it belongs to. *)
Lemma signIn_swap E t P w :
  (forall r path, uploadUserImage E (swap_row r) path = uploadUserImage E r path) ->
  signIn E (swap_provider t) P (swap_world w) = swap_run (signIn E t P w).
Proof.
  intros Hup.
  assert (find_row "email" (c_email P) (db (swap_world w)) =
          option_map swap_row (find_row "email" (c_email P) (db w))) as Hemail.
  { change "email" with (swap_key "email") at 1. apply find_row_swap. }
  assert (find_row (external_id_key (swap_provider t)) (c_external_id P)
            (db (swap_world w)) =
          option_map swap_row
            (find_row (external_id_key t) (c_external_id P) (db w))) as Hext.
  { rewrite <- swap_key_external_id. apply find_row_swap. }
  destruct (find_row "email" (c_email P) (db w)) as [a|] eqn:Ha.
  - rewrite (signIn_found_by_email _ _ _ _ _ Hemail).
    rewrite (signIn_found_by_email _ _ _ _ _ Ha).
    unfold link. rewrite !set_singleton.
    change (EvFind "email" (c_email P))
      with (swap_event (EvFind "email" (c_email P))) at 1.
    rewrite emit_swap, <- swap_key_external_id, <- swap_row_insert.
    apply save_swap.
  - destruct (find_row (external_id_key t) (c_external_id P) (db w))
      as [b|] eqn:Hb.
    + rewrite (signIn_found_by_external_id _ _ _ _ _ Hemail Hext).
      rewrite (signIn_found_by_external_id _ _ _ _ _ Ha Hb).
      unfold swap_run. cbn [fst snd]. f_equal.
      rewrite <- swap_key_external_id.
      change (EvFind "email" (c_email P))
        with (swap_event (EvFind "email" (c_email P))).
      change (EvFind (swap_key (external_id_key t)) (c_external_id P))
        with (swap_event (EvFind (external_id_key t) (c_external_id P))).
      by rewrite !emit_swap.
    + rewrite (signIn_not_found _ _ _ _ Hemail Hext).
      rewrite (signIn_not_found _ _ _ _ Ha Hb).
      rewrite <- swap_key_external_id.
      change (EvFind "email" (c_email P))
        with (swap_event (EvFind "email" (c_email P))) at 1.
      change (EvFind (swap_key (external_id_key t)) (c_external_id P))
        with (swap_event (EvFind (external_id_key t) (c_external_id P))).
      rewrite !emit_swap.
      set (w2 := emit _ (emit _ w)).
      unfold materialize, files_downloadFileFromUrl, files_uploadUserImage.
      run. rewrite <- unsaved_account_swap.
      destruct (c_avatar_source P) as [src|]; [|done].
      destruct (downloadFileFromUrl E src) as [path|]; cbn [fst snd].
      * rewrite Hup.
        destruct (uploadUserImage E (unsaved_account E t P) path) as [url|].
        -- change (EvDownload src) with (swap_event (EvDownload src)) at 1.
           change (EvUpload (swap_row (unsaved_account E t P)) path)
             with (swap_event (EvUpload (unsaved_account E t P) path)).
           rewrite !emit_swap, !set_singleton.
           change "image_url" with (swap_key "image_url") at 1.
           rewrite <- swap_row_insert. apply save_swap.
        -- change (EvDownload src) with (swap_event (EvDownload src)) at 1.
           change (EvUpload (swap_row (unsaved_account E t P)) path)
             with (swap_event (EvUpload (unsaved_account E t P) path)).
           by rewrite !emit_swap.
      * change (EvDownload src) with (swap_event (EvDownload src)) at 1.
        by rewrite !emit_swap.
Qed.

(** * Properties of the service *)

(** C1.  Every sign-in, Google or Facebook, looks accounts up in a fixed
    order and the first match wins: the lookup by email comes first and,
    when it finds an account, that account (linked) is what is returned
    and no lookup by external id is made, whatever that lookup would have
    found; only when the email lookup finds nothing is the account looked
    up by the provider's external id and returned if found; when both
    lookups find nothing the flow goes on to create, performs no further
    lookup and returns no account of the store. *)
Theorem resolve_order E t P flow w :
  signs_in E t P flow ->
  wf_world w ->
  let key := external_id_key t in
  let by_email := EvFind "email" (c_email P) in
  let by_external_id := EvFind key (c_external_id P) in
  match find_row "email" (c_email P) (db w) with
  | Some a =>
      fst (flow w) = Ok (<[key := c_external_id P]> a) /\
      lookups (trace (snd (flow w))) =
        (lookups (trace w) ++ [by_email])%list
  | None =>
      lookups (trace (snd (flow w))) =
        (lookups (trace w) ++ [by_email; by_external_id])%list /\
      match find_row key (c_external_id P) (db w) with
      | Some b => fst (flow w) = Ok b
      | None => forall r, fst (flow w) = Ok r -> r ∉ db w
      end
  end.
Proof.
  intros Hflow Hwf key by_email by_external_id.
  subst by_email by_external_id.
  rewrite (signs_in_signIn _ _ _ _ Hflow).
  destruct (find_row "email" (c_email P) (db w)) as [a|] eqn:Hemail.
  - destruct (find_row_Some _ _ _ _ Hemail) as [Hin _].
    destruct (wf_world_row_id _ _ Hwf Hin) as (n & Hid & _).
    rewrite (signIn_found_by_email _ _ _ _ _ Hemail).
    rewrite (link_existing _ _ _ _ _ Hid). cbn [fst snd trace emit].
    split; [done|]. rewrite !lookups_app. cbn. by rewrite app_nil_r.
  - destruct (find_row key (c_external_id P) (db w)) as [b|] eqn:Hext.
    + rewrite (signIn_found_by_external_id _ _ _ _ _ Hemail Hext).
      cbn [fst snd trace emit]. split; [|done].
      rewrite !lookups_app. cbn. by rewrite <- app_assoc.
    + rewrite (signIn_not_found _ _ _ _ Hemail Hext).
      destruct (ingestion_cases E t P) as [(src & path & url & Hs & Hd & Hu)|Hf].
      * rewrite (materialize_ok _ _ _ _ _ _ _ Hs Hd Hu).
        cbn [fst snd trace next_id emit]. split.
        -- rewrite !lookups_app. cbn. rewrite <- !app_assoc.
           by rewrite app_nil_r.
        -- intros r [= <-] Hin.
           destruct (wf_world_row_id _ _ Hwf Hin) as (n & Hid & Hlt).
           unfold created_account in Hid.
           rewrite lookup_insert_eq in Hid. injection Hid as <-. lia.
      * match goal with |- context [materialize E t P ?w0] =>
          destruct (materialize_fails E t P w0 Hf)
            as (e & w' & -> & _ & _ & ingest & Htr & Hing)
        end.
        cbn [fst snd]. rewrite Htr. cbn [trace emit]. split; [|done].
        rewrite !lookups_app, (proj1 (ingest_no_lookup _ Hing)). cbn.
        by rewrite <- !app_assoc.
Qed.

Lemma resolve_order_witness :
  signs_in crossed_env Google (normalize_google crossed_google)
    (signInWithGoogle crossed_env "code") /\
  wf_world fixture_world /\
  fst (signInWithGoogle crossed_env "code" fixture_world) =
    Ok (<["google_id" := VString "g7"]> alice) /\
  lookups
    (trace (snd (signInWithGoogle crossed_env "code" fixture_world))) =
    [EvFind "email" (VString "a@x.com")].
Proof.
  split; [by apply signs_in_google with "code"|].
  split; [exact fixture_world_wf|].
  exact (resolve_order crossed_env Google _ _ fixture_world
           (signs_in_google crossed_env "code" "code" crossed_google
              eq_refl eq_refl)
           fixture_world_wf).
Defined.

(** C2, refuted as stated.  Nobody holds the newcomer's email or Google
    id, so the sign-in takes the creation branch.  With an upload that
    answers the empty URL the account is persisted with an empty avatar
    URL; with a download that is rejected no account is persisted. *)
Lemma creation_can_fail_or_store_empty_avatar :
  find_row "email" (VString "new@x.com") (db fixture_world) = None /\
  find_row "google_id" (VString "g2") (db fixture_world) = None /\
  ~ creates_account_with_avatar (signInWithGoogle empty_url_env "code")
      fixture_world /\
  ~ creates_account_with_avatar (signInWithGoogle failing_download_env "code")
      fixture_world.
Proof.
  split; [reflexivity|]. split; [reflexivity|]. split.
  - intros (acct & Hres & _ & Hurl). vm_compute in Hres.
    injection Hres as <-. vm_compute in Hurl. discriminate Hurl.
  - intros (acct & Hres & _). vm_compute in Hres. discriminate Hres.
Qed.

(** C2, amended.  When neither lookup finds an account and the avatar
    pipeline answers (a download path, then a stored URL), the sign-in
    persists exactly one new account: the table grows by that one row and
    a single save reaches the store.  The row's names and email are the
    payload's, its external id for the originating provider is the
    payload's, its registration date is the time of creation, and its
    avatar URL is the URL the upload answered for the downloaded picture,
    stored as it is: it is non-empty exactly when the upload's answer
    is. *)
Theorem creates_exactly_one_account E t P flow w src path url :
  signs_in E t P flow ->
  find_row "email" (c_email P) (db w) = None ->
  find_row (external_id_key t) (c_external_id P) (db w) = None ->
  c_avatar_source P = Some src ->
  downloadFileFromUrl E src = Some path ->
  uploadUserImage E (unsaved_account E t P) path = Some url ->
  exists acct : row,
    fst (flow w) = Ok acct /\
    db (snd (flow w)) = (db w ++ [acct])%list /\
    saves (trace (snd (flow w))) =
      (saves (trace w) ++ [EvSave acct])%list /\
    acct !! "first_name" = Some (c_given_name P) /\
    acct !! "last_name" = Some (c_family_name P) /\
    acct !! "email" = Some (c_email P) /\
    acct !! external_id_key t = Some (c_external_id P) /\
    acct !! "image_url" = Some (VString url) /\
    (isEmpty (prop acct "image_url") = false <-> url ≠ "") /\
    acct !! "registration_date" = Some (VDate (now E)) /\
    acct !! "id" = Some (VNumber (next_id w)).
Proof.
  intros Hflow Hemail Hext Hs Hd Hu.
  rewrite (signs_in_signIn _ _ _ _ Hflow).
  rewrite (signIn_not_found _ _ _ _ Hemail Hext).
  rewrite (materialize_ok _ _ _ _ _ _ _ Hs Hd Hu).
  cbn [fst snd db next_id trace emit].
  eexists. split; [reflexivity|]. split; [reflexivity|].
  split. { rewrite !saves_app. cbn. by rewrite !app_nil_r. }
  assert (created_account E t P url (next_id w) !! "image_url"
          = Some (VString url)) as Himg.
  { unfold created_account. by simplify_map_eq. }
  assert (isEmpty (VString url) = false <-> url ≠ "") as Hurl.
  { destruct url; cbn; [|done]. split; [discriminate | by intros H]. }
  unfold prop. rewrite Himg. cbn [default].
  unfold created_account, unsaved_account, new_User.
  destruct t; cbn [external_id_key list_to_map foldr fst snd];
    simplify_map_eq; repeat split; try done; apply Hurl.
Qed.

Lemma creates_exactly_one_account_witness :
  find_row "email" (VString "new@x.com") (db fixture_world) = None /\
  find_row "google_id" (VString "g2") (db fixture_world) = None /\
  exists acct : row,
    fst (signInWithGoogle newcomer_env "code" fixture_world) = Ok acct /\
    db (snd (signInWithGoogle newcomer_env "code" fixture_world))
      = [alice; bob; acct] /\
    saves
      (trace (snd (signInWithGoogle newcomer_env "code" fixture_world)))
      = [EvSave acct] /\
    acct !! "first_name" = Some (VString "A") /\
    acct !! "last_name" = Some (VString "B") /\
    acct !! "email" = Some (VString "new@x.com") /\
    acct !! "google_id" = Some (VString "g2") /\
    acct !! "image_url" = Some (VString "http://cdn/3") /\
    (isEmpty (prop acct "image_url") = false <-> "http://cdn/3" ≠ "") /\
    acct !! "registration_date" = Some (VDate 1700000000) /\
    acct !! "id" = Some (VNumber 3).
Proof.
  split; [reflexivity|]. split; [reflexivity|].
  exact (creates_exactly_one_account newcomer_env Google _ _ fixture_world
           (VString "http://img") "/tmp/img" "http://cdn/3"
           (signs_in_google newcomer_env "code" "code" newcomer_google
              eq_refl eq_refl)
           eq_refl eq_refl eq_refl eq_refl eq_refl).
Defined.

(** C3.  In the account-creation branch the save is the last step: a save
    reaches the store only after the picture has been downloaded and
    uploaded, in that order.  So when the payload has no picture, the
    download fails or the upload fails, the sign-in raises, no save is
    made, and the table and the id counter are as they were. *)
Theorem failed_ingestion_persists_nothing E t P flow w :
  signs_in E t P flow ->
  find_row "email" (c_email P) (db w) = None ->
  find_row (external_id_key t) (c_external_id P) (db w) = None ->
  (exists calls : list event,
     trace (snd (flow w)) = (trace w ++ calls)%list /\
     forall before r after,
       calls = (before ++ EvSave r :: after)%list ->
       after = [] /\ fst (flow w) = Ok r /\
       exists src owner path pre,
         before = (pre ++ [EvDownload src; EvUpload owner path])%list) /\
  (ingestion_fails E t P ->
     exists e, fst (flow w) = Throw e /\
       db (snd (flow w)) = db w /\
       next_id (snd (flow w)) = next_id w /\
       saves (trace (snd (flow w))) = saves (trace w)).
Proof.
  intros Hflow Hemail Hext.
  rewrite (signs_in_signIn _ _ _ _ Hflow).
  rewrite (signIn_not_found _ _ _ _ Hemail Hext).
  set (w2 := emit _ (emit _ w)).
  assert (forall Hf : ingestion_fails E t P,
            exists e w' ingest,
              materialize E t P w2 = (Throw e, w') /\
              db w' = db w /\ next_id w' = next_id w /\
              trace w' = (trace w2 ++ ingest)%list /\
              Forall (fun ev => is_save ev = false /\ is_lookup ev = false)
                     ingest) as Hfail.
  { intros Hf.
    destruct (materialize_fails E t P w2 Hf)
      as (e & w' & Hm & Hdb & Hn & ingest & Htr & Hing).
    by exists e, w', ingest. }
  split.
  - destruct (ingestion_cases E t P) as [(src & path & url & Hs & Hd & Hu)|Hf].
    + rewrite (materialize_ok _ _ _ _ _ _ _ Hs Hd Hu).
      cbn [fst snd trace emit w2]. eexists. split.
      { rewrite <- !app_assoc. cbn [app]. reflexivity. }
      intros before r after Heq.
      do 5 (destruct before as [|? before];
            [try discriminate Heq | injection Heq as <- Heq]).
      * injection Heq as <- <-. split; [done|]. split; [done|].
        by eexists _, _, _, [_; _].
      * by destruct before.
    + destruct (Hfail Hf) as (e & w' & ingest & -> & _ & _ & Htr & Hing).
      cbn [fst snd]. rewrite Htr. cbn [trace emit w2]. eexists. split.
      { rewrite <- !app_assoc. cbn [app]. reflexivity. }
      intros before r after Heq. exfalso.
      do 2 (destruct before as [|? before];
            [discriminate Heq | injection Heq as <- Heq]).
      rewrite Heq in Hing. apply Forall_app in Hing as [_ Hing].
      apply Forall_cons in Hing as [[Hsave _] _]. discriminate Hsave.
  - intros Hf.
    destruct (Hfail Hf) as (e & w' & ingest & -> & Hdb & Hn & Htr & Hing).
    exists e. cbn [fst snd]. rewrite Htr. cbn [trace emit w2].
    repeat split; try done.
    rewrite !saves_app, (proj2 (ingest_no_lookup _ Hing)). cbn.
    by rewrite !app_nil_r.
Qed.

Lemma failed_ingestion_persists_nothing_witness :
  find_row "email" (VString "new@x.com") (db fixture_world) = None /\
  find_row "google_id" (VString "g2") (db fixture_world) = None /\
  ingestion_fails failing_download_env Google (normalize_google newcomer_google) /\
  exists e,
    fst (signInWithGoogle failing_download_env "code" fixture_world) = Throw e /\
    db (snd (signInWithGoogle failing_download_env "code" fixture_world))
      = [alice; bob] /\
    next_id (snd (signInWithGoogle failing_download_env "code" fixture_world))
      = 3 /\
    saves (trace (snd (signInWithGoogle failing_download_env "code"
                         fixture_world))) = [].
Proof.
  split; [reflexivity|]. split; [reflexivity|]. split; [exact I|].
  exact (proj2 (failed_ingestion_persists_nothing failing_download_env Google
                  _ _ fixture_world
                  (signs_in_google failing_download_env "code" "code"
                     newcomer_google eq_refl eq_refl)
                  eq_refl eq_refl) I).
Defined.

(** C4, refuted as stated.  Alice is stored with Google id [g1]; a Google
    sign-in whose payload carries her email and the id [g2] resolves by
    email and saves her with [g2]. *)
Lemma external_id_overwritten_on_email_match :
  ~ external_id_never_overwritten Google
      (signInWithGoogle relinking_env "code") fixture_world.
Proof.
  intros H.
  specialize (H (VNumber 1) alice (<["google_id" := VString "g2"]> alice)
                (VString "g1") eq_refl eq_refl eq_refl).
  vm_compute in H. discriminate H.
Qed.

(** C4, amended.  A sign-in for a provider leaves the stored external id
    of every account as it was, except for the account the email lookup
    returns: on that account the field is set to the payload's external
    id, whatever it held before. *)
Theorem external_id_kept_unless_email_match E t P flow w i (a : row) g :
  signs_in E t P flow ->
  find_row "id" i (db w) = Some a ->
  a !! external_id_key t = Some g ->
  exists a' : row,
    find_row "id" i (db (snd (flow w))) = Some a' /\
    a' !! external_id_key t =
      Some match find_row "email" (c_email P) (db w) with
           | Some m => if decide (m !! "id" = Some i)
                       then c_external_id P else g
           | None => g
           end.
Proof.
  intros Hflow Hfind Hg.
  rewrite (signs_in_signIn _ _ _ _ Hflow).
  destruct (find_row "email" (c_email P) (db w)) as [m|] eqn:Hemail.
  - rewrite (signIn_found_by_email _ _ _ _ _ Hemail).
    destruct (m !! "id") as [i'|] eqn:Hid.
    + rewrite (link_existing _ _ _ _ _ Hid). cbn [snd db emit].
      set (m' := <[external_id_key t := c_external_id P]> m).
      assert (m' !! "id" = Some i') as Hid'.
      { unfold m'. rewrite lookup_insert_ne; [done | by destruct t]. }
      rewrite (find_id_rewrite_row _ _ _ _ Hid').
      case_decide as Hi.
      * subst i'. rewrite Hfind, decide_True by done.
        exists m'. split; [done|]. unfold m'. apply lookup_insert_eq.
      * rewrite decide_False by congruence. by exists a.
    + unfold link, save. rewrite set_singleton.
      rewrite lookup_insert_ne by (by destruct t). rewrite Hid.
      cbn [snd db emit]. rewrite (find_row_app_l _ _ _ _ _ Hfind).
      by exists a.
  - exists a. split; [|done].
    destruct (find_row (external_id_key t) (c_external_id P) (db w))
      as [b|] eqn:Hext.
    + by rewrite (signIn_found_by_external_id _ _ _ _ _ Hemail Hext).
    + rewrite (signIn_not_found _ _ _ _ Hemail Hext).
      match goal with |- context [materialize E t P ?w0] =>
        destruct (materialize_grows E t P w0) as (tail & -> & _)
      end.
      cbn [db emit]. by apply find_row_app_l.
Qed.

Lemma external_id_kept_unless_email_match_witness :
  find_row "id" (VNumber 2) (db fixture_world) = Some bob /\
  bob !! "google_id" = Some (VString "g7") /\
  exists a' : row,
    find_row "id" (VNumber 2)
      (db (snd (signInWithGoogle relinking_env "code" fixture_world)))
      = Some a' /\
    a' !! "google_id" = Some (VString "g7").
Proof.
  split; [reflexivity|]. split; [reflexivity|].
  exact (external_id_kept_unless_email_match relinking_env Google _ _
           fixture_world (VNumber 2) bob (VString "g7")
           (signs_in_google relinking_env "code" "code" relinking_google
              eq_refl eq_refl)
           eq_refl eq_refl).
Defined.

(** C5.  When the email lookup finds nothing and the lookup by the
    provider's external id finds account [b], the sign-in returns [b] and
    changes nothing: the table and the id counter are as before, and the
    only calls performed are the two lookups, so no write reaches the
    store. *)
Theorem found_by_external_id_no_mutation E t P flow w b :
  signs_in E t P flow ->
  find_row "email" (c_email P) (db w) = None ->
  find_row (external_id_key t) (c_external_id P) (db w) = Some b ->
  fst (flow w) = Ok b /\
  db (snd (flow w)) = db w /\
  next_id (snd (flow w)) = next_id w /\
  trace (snd (flow w)) =
    (trace w ++ [EvFind "email" (c_email P);
                 EvFind (external_id_key t) (c_external_id P)])%list.
Proof.
  intros Hflow Hemail Hext.
  rewrite (signs_in_signIn _ _ _ _ Hflow).
  rewrite (signIn_found_by_external_id _ _ _ _ _ Hemail Hext).
  cbn [fst snd db next_id trace emit]. by rewrite <- app_assoc.
Qed.

Lemma found_by_external_id_no_mutation_witness :
  find_row "email" (VString "bob@new.com") (db fixture_world) = None /\
  find_row "google_id" (VString "g7") (db fixture_world) = Some bob /\
  fst (signInWithGoogle moved_env "code" fixture_world) = Ok bob /\
  db (snd (signInWithGoogle moved_env "code" fixture_world)) = [alice; bob] /\
  next_id (snd (signInWithGoogle moved_env "code" fixture_world)) = 3 /\
  trace (snd (signInWithGoogle moved_env "code" fixture_world)) =
    [EvFind "email" (VString "bob@new.com");
     EvFind "google_id" (VString "g7")].
Proof.
  split; [reflexivity|]. split; [reflexivity|].
  exact (found_by_external_id_no_mutation moved_env Google _ _
           fixture_world bob
           (signs_in_google moved_env "code" "code" moved_google
              eq_refl eq_refl)
           eq_refl eq_refl).
Defined.

(** C6.  Two sign-ins in sequence with the same provider and the same
    profile: when the first returns an account, the second returns that
    same account and leaves the store as the first left it, with the same
    table (so no duplicate account) and the same id counter, whatever
    the avatar pipeline and the clock do at the second call. *)
Theorem second_sign_in_is_idempotent E E' t P flow flow' w acct :
  signs_in E t P flow ->
  signs_in E' t P flow' ->
  wf_world w ->
  fst (flow w) = Ok acct ->
  fst (flow' (snd (flow w))) = Ok acct /\
  db (snd (flow' (snd (flow w)))) = db (snd (flow w)) /\
  next_id (snd (flow' (snd (flow w)))) = next_id (snd (flow w)).
Proof.
  intros Hflow Hflow' Hwf.
  rewrite (signs_in_signIn _ _ _ _ Hflow).
  set (key := external_id_key t).
  assert (key ≠ "id" /\ key ≠ "email") as [Hkid Hkem]
    by (unfold key; by destruct t).
  destruct (find_row "email" (c_email P) (db w)) as [a|] eqn:Hemail.
  - destruct (find_row_Some _ _ _ _ Hemail) as [Hin Hmail].
    destruct (wf_world_row_id _ _ Hwf Hin) as (n & Hid & _).
    rewrite (signIn_found_by_email _ _ _ _ _ Hemail).
    rewrite (link_existing _ _ _ _ _ Hid). cbn [fst snd]. fold key.
    set (a' := <[key := c_external_id P]> a).
    intros [= <-].
    assert (a' !! "id" = Some (VNumber n)) as Hid'
      by (unfold a'; by rewrite lookup_insert_ne).
    assert (a' !! "email" = Some (c_email P)) as Hmail'
      by (unfold a'; by rewrite lookup_insert_ne).
    rewrite (signs_in_signIn _ _ _ _ Hflow').
    erewrite signIn_found_by_email
      by (cbn [db]; by apply find_email_rewrite_row with a).
    rewrite (link_existing _ _ _ _ _ Hid'). fold key.
    cbn [fst snd db next_id emit]. unfold a' at 1 3.
    rewrite insert_insert_eq. fold a'.
    by rewrite (rewrite_row_idem _ _ _ Hid').
  - destruct (find_row key (c_external_id P) (db w)) as [b|] eqn:Hext.
    + rewrite (signIn_found_by_external_id _ _ _ _ _ Hemail Hext).
      cbn [fst snd]. intros [= <-].
      rewrite (signs_in_signIn _ _ _ _ Hflow').
      match goal with |- context [signIn E' t P ?w0] =>
        by rewrite (signIn_found_by_external_id E' t P w0 b Hemail Hext)
      end.
    + rewrite (signIn_not_found _ _ _ _ Hemail Hext).
      destruct (ingestion_cases E t P) as [(src & path & url & Hs & Hd & Hu)|Hf].
      * rewrite (materialize_ok _ _ _ _ _ _ _ Hs Hd Hu).
        cbn [fst snd next_id emit]. intros [= <-].
        set (new := created_account E t P url (next_id w)).
        destruct (created_account_lookup E t P url (next_id w))
          as (Hid & Hmail & Hkey). fold new key in Hid, Hmail, Hkey.
        rewrite (signs_in_signIn _ _ _ _ Hflow').
        erewrite signIn_found_by_email; cycle 1.
        { cbn [db emit]. rewrite find_row_snoc, Hemail.
          by rewrite (proj2 (matches_true _ _ _) Hmail). }
        rewrite (link_existing _ _ _ _ _ Hid). fold key.
        cbn [fst snd db next_id emit].
        rewrite (insert_id _ _ _ Hkey).
        repeat split. unfold rewrite_row. rewrite map_app.
        fold (rewrite_row (VNumber (next_id w)) new (db w)).
        rewrite (rewrite_row_fresh _ _ _ Hwf). cbn [map].
        by rewrite (proj2 (matches_true _ _ _) Hid).
      * match goal with |- context [materialize E t P ?w0] =>
          destruct (materialize_fails E t P w0 Hf) as (e & w' & -> & _)
        end.
        discriminate.
Qed.

Lemma second_sign_in_is_idempotent_witness :
  wf_world fixture_world /\
  fst (signInWithGoogle newcomer_env "code" fixture_world) =
    Ok (created_account newcomer_env Google (normalize_google newcomer_google)
          "http://cdn/3" 3) /\
  fst (signInWithGoogle failing_download_env "code"
         (snd (signInWithGoogle newcomer_env "code" fixture_world))) =
    Ok (created_account newcomer_env Google (normalize_google newcomer_google)
          "http://cdn/3" 3) /\
  db (snd (signInWithGoogle failing_download_env "code"
             (snd (signInWithGoogle newcomer_env "code" fixture_world)))) =
    db (snd (signInWithGoogle newcomer_env "code" fixture_world)) /\
  next_id (snd (signInWithGoogle failing_download_env "code"
                  (snd (signInWithGoogle newcomer_env "code" fixture_world)))) =
    next_id (snd (signInWithGoogle newcomer_env "code" fixture_world)).
Proof.
  split; [exact fixture_world_wf|]. split; [reflexivity|].
  exact (second_sign_in_is_idempotent newcomer_env failing_download_env Google
           _ _ _ fixture_world _
           (signs_in_google newcomer_env "code" "code" newcomer_google
              eq_refl eq_refl)
           (signs_in_google failing_download_env "code" "code" newcomer_google
              eq_refl eq_refl)
           fixture_world_wf eq_refl).
Defined.

(** C7.  [updateUser] validates the merged account before it saves.  If,
    once the patch is applied, the first name is absent or empty the call
    raises [first_name_required]; otherwise if the last name is, it raises
    [last_name_required]; otherwise if the email is, it raises
    [email_required].  In each case the only call made is the read of the
    account: no save occurs and the table is as it was.  In particular a
    patch holding only an empty first name is rejected with the first-name
    error.  Whenever the call raises, the read is all that happened. *)
Theorem update_validates_before_save (user data r : row) w :
  find_row "id" (prop user "id") (db w) = Some r ->
  let merged := set (pick data ALLOWED_ATTRS_TO_UPDATE) r in
  let rejected code message :=
    updateUser user data w =
      (Throw (ApiError code message), emit (EvGet (prop user "id")) w) in
  (absent_or_empty (merged !! "first_name") ->
     rejected "first_name_required" "First name required") /\
  (non_empty_string (merged !! "first_name") ->
   absent_or_empty (merged !! "last_name") ->
     rejected "last_name_required" "Last name required") /\
  (non_empty_string (merged !! "first_name") ->
   non_empty_string (merged !! "last_name") ->
   absent_or_empty (merged !! "email") ->
     rejected "email_required" "Email required") /\
  (data = {["first_name" := VString ""]} ->
     rejected "first_name_required" "First name required") /\
  (forall e w', updateUser user data w = (Throw e, w') ->
     w' = emit (EvGet (prop user "id")) w).
Proof.
  intros Hget merged rejected. subst rejected.
  unfold updateUser, queries_get, validateUser. run. rewrite Hget. run.
  fold merged.
  split; [|split; [|split; [|split]]].
  - intros H. by rewrite (absent_or_empty_rejected _ _ H).
  - intros H1 H2.
    rewrite (non_empty_string_accepted _ _ H1).
    by rewrite (absent_or_empty_rejected _ _ H2).
  - intros H1 H2 H3.
    rewrite (non_empty_string_accepted _ _ H1).
    rewrite (non_empty_string_accepted _ _ H2).
    by rewrite (absent_or_empty_rejected _ _ H3).
  - intros ->.
    assert (absent_or_empty (merged !! "first_name")) as H.
    { right; right; right. unfold merged.
      rewrite set_lookup, pick_lookup, decide_True by apply list_elem_of_here.
      by rewrite lookup_singleton_eq. }
    by rewrite (absent_or_empty_rejected _ _ H).
  - intros e w'.
    destruct (negb (truthy (prop merged "first_name")) || _);
      [by intros [= _ <-]|].
    destruct (negb (truthy (prop merged "last_name")) || _);
      [by intros [= _ <-]|].
    destruct (negb (truthy (prop merged "email")) || _);
      [by intros [= _ <-]|].
    unfold save. by destruct (merged !! "id").
Qed.

Lemma update_validates_before_save_witness :
  find_row "id" (prop alice "id") (db fixture_world) = Some alice /\
  absent_or_empty
    (set (pick empty_first_name ALLOWED_ATTRS_TO_UPDATE) alice !! "first_name") /\
  updateUser alice empty_first_name fixture_world =
    (Throw (ApiError "first_name_required" "First name required"),
     emit (EvGet (VNumber 1)) fixture_world).
Proof.
  split; [reflexivity|].
  split; [right; right; right; reflexivity|].
  exact (proj1 (update_validates_before_save alice empty_first_name alice
                  fixture_world eq_refl)
           (or_intror (or_intror (or_intror eq_refl)))).
Defined.

(** C8.  [updateUser] applies only the allow-listed attributes of the
    patch.  Every other attribute of the merged account is the stored
    one, whatever the patch holds under that name; an allow-listed
    attribute is the patch's when the patch has it and the stored one
    otherwise.  When the three validated fields of the merged account are
    non-empty strings the call succeeds: it returns the merged account and
    saves it in place of the stored one. *)
Theorem update_applies_only_allowed (user data r : row) w :
  find_row "id" (prop user "id") (db w) = Some r ->
  let merged := set (pick data ALLOWED_ATTRS_TO_UPDATE) r in
  (forall k, k ∉ ALLOWED_ATTRS_TO_UPDATE -> merged !! k = r !! k) /\
  (forall k, k ∈ ALLOWED_ATTRS_TO_UPDATE ->
     merged !! k = match data !! k with Some v => Some v | None => r !! k end) /\
  (non_empty_string (merged !! "first_name") ->
   non_empty_string (merged !! "last_name") ->
   non_empty_string (merged !! "email") ->
     updateUser user data w =
       (Ok merged,
        {| db := rewrite_row (prop user "id") merged (db w);
           next_id := next_id w;
           trace := trace w ++ [EvGet (prop user "id"); EvSave merged] |}) /\
     find_row "id" (prop user "id")
       (rewrite_row (prop user "id") merged (db w)) = Some merged).
Proof.
  intros Hget merged.
  assert (forall k, k ∉ ALLOWED_ATTRS_TO_UPDATE -> merged !! k = r !! k) as Hout.
  { intros k Hk. unfold merged.
    by rewrite set_lookup, pick_lookup, decide_False. }
  split; [exact Hout|]. split.
  - intros k Hk. unfold merged.
    by rewrite set_lookup, pick_lookup, decide_True.
  - intros H1 H2 H3.
    destruct (find_row_Some _ _ _ _ Hget) as [_ Hid].
    assert (merged !! "id" = Some (prop user "id")) as Hid'.
    { rewrite Hout; [done|]. unfold ALLOWED_ATTRS_TO_UPDATE.
      rewrite !not_elem_of_cons. repeat split; try done.
      apply not_elem_of_nil. }
    split.
    + unfold updateUser, queries_get, validateUser. run. rewrite Hget. run.
      fold merged.
      rewrite (non_empty_string_accepted _ _ H1).
      rewrite (non_empty_string_accepted _ _ H2).
      rewrite (non_empty_string_accepted _ _ H3).
      unfold save. rewrite Hid'. cbn [db next_id trace emit].
      by rewrite <- app_assoc.
    + rewrite (find_id_rewrite_row _ _ _ _ Hid'), decide_True by done.
      by rewrite Hget.
Qed.

Lemma update_applies_only_allowed_witness :
  find_row "id" (prop alice "id") (db fixture_world) = Some alice /\
  updateUser alice role_patch fixture_world =
    (Ok (<["first_name" := VString "Alicia"]> alice),
     {| db := [<["first_name" := VString "Alicia"]> alice; bob];
        next_id := 3;
        trace := [EvGet (VNumber 1);
                  EvSave (<["first_name" := VString "Alicia"]> alice)] |}) /\
  (<["first_name" := VString "Alicia"]> alice) !! "role" = None.
Proof.
  split; [reflexivity|].
  pose proof (update_applies_only_allowed alice role_patch alice
                fixture_world eq_refl) as (Hout & _ & Hok).
  split.
  - refine (proj1 (Hok _ _ _)); eexists; (split; [reflexivity | discriminate]).
  - reflexivity.
Defined.

(** C9.  When a sign-in resolves by email, the linking step writes the
    signing-in provider's external id on the matched account and nothing
    else: every other attribute of that account (names, email, avatar
    URL, registration date, the other provider's external id) is as it
    was, none is refreshed from the payload, every other account is as it
    was, and no account is added. *)
Theorem link_changes_only_external_id E t P flow w a i :
  signs_in E t P flow ->
  find_row "email" (c_email P) (db w) = Some a ->
  a !! "id" = Some i ->
  exists a' : row,
    fst (flow w) = Ok a' /\
    find_row "id" i (db (snd (flow w))) = Some a' /\
    a' !! external_id_key t = Some (c_external_id P) /\
    (forall k, k ≠ external_id_key t -> a' !! k = a !! k) /\
    (forall j, j ≠ i ->
       find_row "id" j (db (snd (flow w))) = find_row "id" j (db w)) /\
    length (db (snd (flow w))) = length (db w).
Proof.
  intros Hflow Hemail Hid.
  rewrite (signs_in_signIn _ _ _ _ Hflow).
  rewrite (signIn_found_by_email _ _ _ _ _ Hemail).
  rewrite (link_existing _ _ _ _ _ Hid). cbn [fst snd db emit].
  set (a' := <[external_id_key t := c_external_id P]> a).
  assert (a' !! "id" = Some i) as Hid'.
  { unfold a'. rewrite lookup_insert_ne; [done | by destruct t]. }
  exists a'. split; [done|]. split; [|split; [|split; [|split]]].
  - rewrite (find_id_rewrite_row _ _ _ _ Hid'), decide_True by done.
    destruct (find_row_Some _ _ _ _ Hemail) as [Hin _].
    by destruct (find_row_is_Some "id" i _ _ Hin Hid) as [x ->].
  - unfold a'. apply lookup_insert_eq.
  - intros k Hk. unfold a'. by rewrite lookup_insert_ne.
  - intros j Hj.
    by rewrite (find_id_rewrite_row _ _ _ _ Hid'), decide_False.
  - apply rewrite_row_length.
Qed.

Lemma link_changes_only_external_id_witness :
  find_row "email" (VString "a@x.com") (db fixture_world) = Some alice /\
  exists a' : row,
    fst (signInWithFacebook alice_facebook_env "token" fixture_world) = Ok a' /\
    find_row "id" (VNumber 1)
      (db (snd (signInWithFacebook alice_facebook_env "token" fixture_world)))
      = Some a' /\
    a' !! "facebook_id" = Some (VString "f9") /\
    (forall k, k ≠ "facebook_id" -> a' !! k = alice !! k) /\
    (forall j, j ≠ VNumber 1 ->
       find_row "id" j
         (db (snd (signInWithFacebook alice_facebook_env "token" fixture_world)))
       = find_row "id" j [alice; bob]) /\
    length
      (db (snd (signInWithFacebook alice_facebook_env "token" fixture_world)))
      = 2%nat.
Proof.
  split; [reflexivity|].
  exact (link_changes_only_external_id alice_facebook_env Facebook _ _
           fixture_world alice (VNumber 1)
           (signs_in_facebook alice_facebook_env "token" alice_facebook eq_refl)
           eq_refl eq_refl).
Defined.

(** C10, refuted as stated.  Bob is linked to Google id [g7] and to no
    Facebook id.  For the same canonical profile (id [g7], an email nobody
    has) the Google flow finds Bob by external id and returns him, while
    the Facebook flow finds nobody and creates a third account. *)
Lemma flows_diverge_on_same_store :
  ~ flows_agree_on_same_store twin_env "code" "token" fixture_world.
Proof.
  intros (_ & Hlen & _). vm_compute in Hlen. discriminate Hlen.
Qed.

(** C10, amended.  The two flows are the same algorithm up to the
    provider's external-id attribute: for payloads with the same
    canonical content, and an upload that does not depend on which
    provider's id the unsaved account carries, running the Facebook flow
    on the store in which the two external-id attributes are exchanged
    yields the Google flow's result, table and trace of calls with the
    two attributes exchanged: the same lookups up to the key, the same
    branch and the same account up to the field written. *)
Theorem flows_agree_up_to_provider E code tok gp token fp w :
  getOauth2 E code = Some tok ->
  userinfo_get E tok = Some gp ->
  facebook_api_me E token = Some fp ->
  normalize_facebook fp = normalize_google gp ->
  (forall r path, uploadUserImage E (swap_row r) path = uploadUserImage E r path) ->
  signInWithFacebook E token (swap_world w) =
    swap_run (signInWithGoogle E code w).
Proof.
  intros Htok Hgp Hfp Hcanon Hup.
  rewrite (signInWithFacebook_signIn _ _ _ _ Hfp).
  rewrite (signInWithGoogle_signIn _ _ _ _ _ Htok Hgp).
  rewrite Hcanon. exact (signIn_swap E Google _ w Hup).
Qed.

Lemma flows_agree_up_to_provider_witness :
  normalize_facebook moved_facebook = normalize_google moved_google /\
  signInWithFacebook twin_env "token" (swap_world fixture_world) =
    swap_run (signInWithGoogle twin_env "code" fixture_world).
Proof.
  split; [reflexivity|].
  exact (flows_agree_up_to_provider twin_env "code" "code" moved_google
           "token" moved_facebook fixture_world
           eq_refl eq_refl eq_refl eq_refl (fun _ _ => eq_refl)).
Defined.

(** * Further properties of the service *)

(** ** More facts about the record store *)

Lemma row_ids_rewrite_row i (r : row) rows :
  r !! "id" = Some i -> row_ids (rewrite_row i r rows) = row_ids rows.
Proof.
  intros Hr. unfold row_ids, rewrite_row. rewrite map_map. apply map_ext_in.
  intros x _. destruct (matches "id" i x) eqn:Hx; [|done].
  apply matches_true in Hx. congruence.
Qed.

Lemma has_id_below_rewrite_row bound i (r : row) rows :
  has_id_below bound r ->
  Forall (has_id_below bound) rows ->
  Forall (has_id_below bound) (rewrite_row i r rows).
Proof.
  intros Hr. unfold rewrite_row. induction 1 as [|x rows Hx _ IH]; cbn [map].
  - constructor.
  - constructor; [by destruct (matches "id" i x) | exact IH].
Qed.

Lemma has_id_below_mono b b' (r : row) :
  b <= b' -> has_id_below b r -> has_id_below b' r.
Proof.
  unfold has_id_below. intros Hle.
  destruct (r !! "id") as [[]|]; try done. lia.
Qed.

Lemma has_id_below_same_id bound (r r' : row) :
  r' !! "id" = r !! "id" -> has_id_below bound r -> has_id_below bound r'.
Proof. unfold has_id_below. by intros ->. Qed.

(** With unique ids, a stored row is the one found under its id. *)
Lemma find_id_unique i (r : row) rows :
  NoDup (row_ids rows) -> r ∈ rows -> r !! "id" = Some i ->
  find_row "id" i rows = Some r.
Proof.
  unfold find_row, row_ids. intros Hnd Hin Hr.
  induction rows as [|x rows IH]; cbn [map find] in *.
  - by apply elem_of_nil in Hin.
  - apply NoDup_cons in Hnd as [Hx Hnd].
    apply elem_of_cons in Hin as [<- | Hin].
    + by rewrite (proj2 (matches_true _ _ _) Hr).
    + destruct (matches "id" i x) eqn:Hm; [|by apply IH].
      apply matches_true in Hm. exfalso. apply Hx.
      rewrite Hm, <- Hr. apply list_elem_of_In, in_map.
      by apply list_elem_of_In.
Qed.

(** With unique ids, writing a row back unchanged leaves the table as it
    is. *)
Lemma rewrite_row_same i (r : row) rows :
  NoDup (row_ids rows) -> find_row "id" i rows = Some r ->
  rewrite_row i r rows = rows.
Proof.
  unfold find_row, row_ids, rewrite_row. intros Hnd Hf.
  induction rows as [|x rows IH]; cbn [map find] in *; [done|].
  apply NoDup_cons in Hnd as [Hx Hnd].
  destruct (matches "id" i x) eqn:Hm.
  - injection Hf as ->. f_equal. apply matches_true in Hm.
    clear IH. induction rows as [|y rows IH]; cbn [map]; [done|].
    assert (matches "id" i y = false) as ->.
    { apply matches_false. intros Hy. apply Hx. rewrite Hm, <- Hy.
      cbn [map]. apply list_elem_of_here. }
    f_equal. apply IH.
    + intros Hin. apply Hx. cbn [map]. by apply list_elem_of_further.
    + cbn [map] in Hnd. by apply NoDup_cons in Hnd as [_ Hnd].
  - f_equal. by apply IH.
Qed.

Lemma store_ok_ext w w' :
  db w' = db w -> next_id w' = next_id w -> store_ok w -> store_ok w'.
Proof. unfold store_ok, wf_world. by intros -> ->. Qed.

Lemma store_ok_rewrite w (r0 r : row) i tr :
  store_ok w -> r0 ∈ db w -> r0 !! "id" = Some i -> r !! "id" = Some i ->
  store_ok {| db := rewrite_row i r (db w); next_id := next_id w; trace := tr |}.
Proof.
  intros [Hwf Hnd] Hin Hr0 Hr. split.
  - unfold wf_world in *. cbn [db next_id].
    apply has_id_below_rewrite_row; [|done].
    apply has_id_below_same_id with r0; [congruence|].
    by apply (proj1 (Forall_forall _ _) Hwf).
  - cbn [db]. by rewrite row_ids_rewrite_row.
Qed.

Lemma store_ok_insert w (r : row) tr :
  store_ok w -> r !! "id" = Some (VNumber (next_id w)) ->
  store_ok {| db := db w ++ [r]; next_id := next_id w + 1; trace := tr |}.
Proof.
  intros [Hwf Hnd] Hr. split.
  - unfold wf_world in *. cbn [db next_id]. apply Forall_app. split.
    + eapply Forall_impl; [exact Hwf|]. intros x. apply has_id_below_mono. lia.
    + constructor; [|constructor]. unfold has_id_below. rewrite Hr. lia.
  - cbn [db]. unfold row_ids in *. rewrite map_app. cbn [map].
    apply NoDup_app. split; [done|]. split; [|apply NoDup_singleton].
    intros o Ho ->%list_elem_of_singleton.
    apply list_elem_of_In, in_map_iff in Ho as (x & Hx & Hin).
    apply list_elem_of_In in Hin.
    destruct (wf_world_row_id _ _ Hwf Hin) as (n & Hid & Hlt).
    rewrite Hr in Hx. rewrite Hid in Hx. injection Hx as ->. lia.
Qed.

Lemma save_store_ok w (r0 r : row) :
  store_ok w -> r0 ∈ db w -> r !! "id" = r0 !! "id" ->
  store_ok (snd (save r w)).
Proof.
  intros Hok Hin Hid.
  destruct (wf_world_row_id _ _ (proj1 Hok) Hin) as (n & Hn & _).
  unfold save. rewrite Hid, Hn. cbn [snd].
  apply store_ok_rewrite with r0; congruence.
Qed.

Lemma signIn_store_ok E t P w : store_ok w -> store_ok (snd (signIn E t P w)).
Proof.
  intros Hok.
  destruct (find_row "email" (c_email P) (db w)) as [a|] eqn:Hemail.
  - destruct (find_row_Some _ _ _ _ Hemail) as [Hin _].
    destruct (wf_world_row_id _ _ (proj1 Hok) Hin) as (n & Hid & _).
    rewrite (signIn_found_by_email _ _ _ _ _ Hemail).
    rewrite (link_existing _ _ _ _ _ Hid). cbn [snd db next_id emit].
    apply store_ok_rewrite with a; try done.
    rewrite lookup_insert_ne; [done | by destruct t].
  - destruct (find_row (external_id_key t) (c_external_id P) (db w))
      as [b|] eqn:Hext.
    + rewrite (signIn_found_by_external_id _ _ _ _ _ Hemail Hext).
      by apply store_ok_ext with w.
    + rewrite (signIn_not_found _ _ _ _ Hemail Hext).
      destruct (ingestion_cases E t P) as [(src & path & url & Hs & Hd & Hu)|Hf].
      * rewrite (materialize_ok _ _ _ _ _ _ _ Hs Hd Hu).
        cbn [snd db next_id emit]. apply store_ok_insert; [done|].
        apply created_account_lookup.
      * match goal with |- context [materialize E t P ?w0] =>
          destruct (materialize_fails E t P w0 Hf)
            as (e & w' & -> & Hdb & Hn & _)
        end.
        by apply store_ok_ext with w.
Qed.

Lemma fixture_store_ok : store_ok fixture_world.
Proof.
  split; [exact fixture_world_wf|]. apply (bool_decide_unpack _). by vm_compute.
Qed.


Lemma merged_keeps_id (data r : row) :
  set (pick data ALLOWED_ATTRS_TO_UPDATE) r !! "id" = r !! "id".
Proof.
  rewrite set_lookup, pick_lookup, decide_False; [done|].
  unfold ALLOWED_ATTRS_TO_UPDATE. rewrite !not_elem_of_cons.
  repeat split; try done. apply not_elem_of_nil.
Qed.

Lemma holds_no_text_rejected (u : row) k :
  holds_no_text (u !! k) ->
  negb (truthy (prop u k)) || isEmpty (prop u k) = true.
Proof.
  unfold prop, holds_no_text.
  destruct (u !! k) as [[| |b|n|s|d]|]; cbn; try done.
  - intros _. apply orb_true_r.
  - intros _. apply orb_true_r.
  - by intros ->.
Qed.

(** X1.  [validateUser] lets an instance through when its first name,
    last name and email are non-empty strings.  It rejects, with the
    field's own error and in the order first name, last name, email, a
    field that is missing, [undefined], [null] or the empty string, and
    also a number, a boolean or a date: these may be truthy, but
    [_.isEmpty] holds of them.  It never touches the store. *)
Theorem validateUser_outcomes (user : row) w :
  (non_empty_string (user !! "first_name") ->
   non_empty_string (user !! "last_name") ->
   non_empty_string (user !! "email") ->
     validateUser user w = (Ok tt, w)) /\
  (holds_no_text (user !! "first_name") ->
     validateUser user w =
       (Throw (ApiError "first_name_required" "First name required"), w)) /\
  (non_empty_string (user !! "first_name") ->
   holds_no_text (user !! "last_name") ->
     validateUser user w =
       (Throw (ApiError "last_name_required" "Last name required"), w)) /\
  (non_empty_string (user !! "first_name") ->
   non_empty_string (user !! "last_name") ->
   holds_no_text (user !! "email") ->
     validateUser user w =
       (Throw (ApiError "email_required" "Email required"), w)).
Proof.
  unfold validateUser, throw, ret. split; [|split; [|split]].
  - intros H1 H2 H3.
    by rewrite !non_empty_string_accepted.
  - intros H1. by rewrite (holds_no_text_rejected _ _ H1).
  - intros H1 H2. rewrite (non_empty_string_accepted _ _ H1).
    by rewrite (holds_no_text_rejected _ _ H2).
  - intros H1 H2 H3. rewrite (non_empty_string_accepted _ _ H1).
    rewrite (non_empty_string_accepted _ _ H2).
    by rewrite (holds_no_text_rejected _ _ H3).
Qed.

Lemma validateUser_outcomes_witness :
  holds_no_text (numbered_alice !! "first_name") /\
  validateUser numbered_alice fixture_world =
    (Throw (ApiError "first_name_required" "First name required"),
     fixture_world).
Proof.
  split; [exact I|].
  exact (proj1 (proj2 (validateUser_outcomes numbered_alice fixture_world)) I).
Defined.

(** X2.  [updateUser] reads the account before it looks at the patch: when
    no account has the id, the call raises the store's not-found error
    whatever the patch holds, valid or not, and the only call made is the
    read. *)
Theorem updateUser_missing_account (user data : row) w :
  find_row "id" (prop user "id") (db w) = None ->
  updateUser user data w =
    (Throw RecordNotFound, emit (EvGet (prop user "id")) w).
Proof.
  intros Hget. unfold updateUser, queries_get. run. by rewrite Hget.
Qed.

Lemma updateUser_missing_account_witness :
  find_row "id" (VNumber 9) (db fixture_world) = None /\
  updateUser {["id" := VNumber 9]} empty_first_name fixture_world =
    (Throw RecordNotFound, emit (EvGet (VNumber 9)) fixture_world).
Proof.
  split; [reflexivity|].
  exact (updateUser_missing_account {["id" := VNumber 9]} empty_first_name
           fixture_world eq_refl).
Defined.

(** X3.  Whatever its outcome, [updateUser] leaves every account other
    than the one it was called for as it was, adds no account and does not
    advance the id counter. *)
Theorem updateUser_frame (user data : row) w :
  (forall j, j ≠ prop user "id" ->
     find_row "id" j (db (snd (updateUser user data w))) =
     find_row "id" j (db w)) /\
  length (db (snd (updateUser user data w))) = length (db w) /\
  next_id (snd (updateUser user data w)) = next_id w.
Proof.
  unfold updateUser, queries_get, validateUser. run.
  destruct (find_row "id" (prop user "id") (db w)) as [r|] eqn:Hget; [|done].
  run. set (merged := set _ r).
  destruct (negb (truthy (prop merged "first_name")) || _); [done|].
  destruct (negb (truthy (prop merged "last_name")) || _); [done|].
  destruct (negb (truthy (prop merged "email")) || _); [done|].
  destruct (find_row_Some _ _ _ _ Hget) as [_ Hid].
  assert (merged !! "id" = Some (prop user "id")) as Hid'
    by (unfold merged; by rewrite merged_keeps_id).
  unfold save. rewrite Hid'. cbn [snd db next_id emit].
  split; [|split; [apply rewrite_row_length | done]].
  intros j Hj. by rewrite (find_id_rewrite_row _ _ _ _ Hid'), decide_False.
Qed.

Lemma updateUser_ok (user data r : row) w :
  find_row "id" (prop user "id") (db w) = Some r ->
  let merged := set (pick data ALLOWED_ATTRS_TO_UPDATE) r in
  negb (truthy (prop merged "first_name"))
    || isEmpty (prop merged "first_name") = false ->
  negb (truthy (prop merged "last_name"))
    || isEmpty (prop merged "last_name") = false ->
  negb (truthy (prop merged "email")) || isEmpty (prop merged "email") = false ->
  updateUser user data w =
    (Ok merged,
     {| db := rewrite_row (prop user "id") merged (db w);
        next_id := next_id w;
        trace := trace w ++ [EvGet (prop user "id"); EvSave merged] |}).
Proof.
  intros Hget merged V1 V2 V3.
  unfold updateUser, queries_get, validateUser. run. rewrite Hget. run.
  fold merged. rewrite V1, V2, V3. unfold save.
  assert (merged !! "id" = Some (prop user "id")) as ->.
  { unfold merged. rewrite merged_keeps_id.
    by destruct (find_row_Some _ _ _ _ Hget). }
  cbn [db next_id trace emit]. by rewrite <- app_assoc.
Qed.

Lemma updateUser_ok_inv (user data m : row) w :
  fst (updateUser user data w) = Ok m ->
  exists r,
    find_row "id" (prop user "id") (db w) = Some r /\
    m = set (pick data ALLOWED_ATTRS_TO_UPDATE) r /\
    negb (truthy (prop m "first_name")) || isEmpty (prop m "first_name") = false /\
    negb (truthy (prop m "last_name")) || isEmpty (prop m "last_name") = false /\
    negb (truthy (prop m "email")) || isEmpty (prop m "email") = false.
Proof.
  destruct (find_row "id" (prop user "id") (db w)) as [r|] eqn:Hget.
  - set (merged := set (pick data ALLOWED_ATTRS_TO_UPDATE) r).
    destruct (negb (truthy (prop merged "first_name"))
              || isEmpty (prop merged "first_name")) eqn:V1;
      [|destruct (negb (truthy (prop merged "last_name"))
                  || isEmpty (prop merged "last_name")) eqn:V2;
        [|destruct (negb (truthy (prop merged "email"))
                    || isEmpty (prop merged "email")) eqn:V3]].
    4: { rewrite (updateUser_ok _ _ _ _ Hget V1 V2 V3). intros [= <-].
         by exists r. }
    all: unfold updateUser, queries_get, validateUser; run; rewrite Hget; run;
         fold merged; rewrite ?V1, ?V2, ?V3; done.
  - unfold updateUser, queries_get. run. by rewrite Hget.
Qed.

(** X4.  Applying the same patch twice is applying it once: when
    [updateUser] succeeds, calling it again with the same arguments
    returns the same account and leaves the table as the first call left
    it. *)
Theorem updateUser_idempotent (user data m : row) w :
  fst (updateUser user data w) = Ok m ->
  fst (updateUser user data (snd (updateUser user data w))) = Ok m /\
  db (snd (updateUser user data (snd (updateUser user data w)))) =
    db (snd (updateUser user data w)).
Proof.
  intros Hm.
  destruct (updateUser_ok_inv _ _ _ _ Hm) as (r & Hget & -> & V1 & V2 & V3).
  set (attrs := pick data ALLOWED_ATTRS_TO_UPDATE) in *.
  set (merged := set attrs r) in *.
  rewrite (updateUser_ok _ _ _ _ Hget V1 V2 V3). cbn [snd].
  fold attrs merged.
  assert (merged !! "id" = Some (prop user "id")) as Hid'.
  { unfold merged, attrs. rewrite merged_keeps_id.
    by destruct (find_row_Some _ _ _ _ Hget). }
  assert (set attrs merged = merged) as Hagain.
  { apply map_eq. intros k. unfold merged. rewrite !set_lookup.
    by destruct (attrs !! k). }
  erewrite (updateUser_ok user data merged); cycle 1.
  - cbn [db].
    by rewrite (find_id_rewrite_row _ _ _ _ Hid'), decide_True, Hget.
  - fold attrs. by rewrite Hagain.
  - fold attrs. by rewrite Hagain.
  - fold attrs. by rewrite Hagain.
  - fold attrs. rewrite Hagain. cbn [fst snd db]. split; [done|].
    by apply rewrite_row_idem.
Qed.

Lemma updateUser_idempotent_witness :
  fst (updateUser alice role_patch fixture_world) =
    Ok (<["first_name" := VString "Alicia"]> alice) /\
  fst (updateUser alice role_patch
         (snd (updateUser alice role_patch fixture_world))) =
    Ok (<["first_name" := VString "Alicia"]> alice) /\
  db (snd (updateUser alice role_patch
             (snd (updateUser alice role_patch fixture_world)))) =
    db (snd (updateUser alice role_patch fixture_world)).
Proof.
  split; [reflexivity|].
  exact (updateUser_idempotent alice role_patch _ fixture_world eq_refl).
Defined.

(** X5.  The four operations that write to the store keep it in order:
    from a store whose rows carry distinct numeric ids below the next id,
    each of the two sign-ins, [updateUser] and [updateUserImage] ends,
    whatever its arguments, its collaborators' answers and its outcome,
    in a store of the same kind. *)
Theorem store_ok_preserved E w :
  store_ok w ->
  (forall code, store_ok (snd (signInWithGoogle E code w))) /\
  (forall token, store_ok (snd (signInWithFacebook E token w))) /\
  (forall user data, store_ok (snd (updateUser user data w))) /\
  (forall user path, store_ok (snd (updateUserImage E user path w))).
Proof.
  intros Hok. split; [|split; [|split]].
  - intros code.
    destruct (getOauth2 E code) as [tok|] eqn:Htok.
    1: destruct (userinfo_get E tok) as [p|] eqn:Hp.
    1: { rewrite (signInWithGoogle_signIn _ _ _ _ _ Htok Hp).
         by apply signIn_store_ok. }
    all: unfold signInWithGoogle; run; rewrite Htok; run; by rewrite ?Hp.
  - intros token.
    destruct (facebook_api_me E token) as [p|] eqn:Hp.
    + rewrite (signInWithFacebook_signIn _ _ _ _ Hp). by apply signIn_store_ok.
    + unfold signInWithFacebook. run. by rewrite Hp.
  - intros user data. unfold updateUser, queries_get, validateUser. run.
    destruct (find_row "id" (prop user "id") (db w)) as [r|] eqn:Hget;
      [|by apply store_ok_ext with w].
    run. set (merged := set _ r).
    destruct (negb (truthy (prop merged "first_name")) || _);
      [by apply store_ok_ext with w|].
    destruct (negb (truthy (prop merged "last_name")) || _);
      [by apply store_ok_ext with w|].
    destruct (negb (truthy (prop merged "email")) || _);
      [by apply store_ok_ext with w|].
    apply save_store_ok with r.
    + by apply store_ok_ext with w.
    + by destruct (find_row_Some _ _ _ _ Hget).
    + apply merged_keeps_id.
  - intros user path.
    unfold updateUserImage, queries_get, files_uploadUserImage. run.
    destruct (find_row "id" (prop user "id") (db w)) as [r|] eqn:Hget;
      [|by apply store_ok_ext with w].
    run. destruct (uploadUserImage E r path) as [url|];
      [|by apply store_ok_ext with w].
    apply save_store_ok with r.
    + by apply store_ok_ext with w.
    + by destruct (find_row_Some _ _ _ _ Hget).
    + by rewrite lookup_insert_ne.
Qed.

Lemma store_ok_preserved_witness :
  store_ok fixture_world /\
  store_ok (snd (signInWithGoogle newcomer_env "code" fixture_world)) /\
  store_ok (snd (updateUser alice role_patch fixture_world)).
Proof.
  split; [exact fixture_store_ok|].
  pose proof (store_ok_preserved newcomer_env fixture_world fixture_store_ok)
    as (Hg & _ & Hu & _).
  split; [exact (Hg "code") | exact (Hu alice role_patch)].
Defined.

(** X6.  [updateUserImage] on a stored account whose upload succeeds
    writes the stored URL to the avatar attribute and nothing else: the
    account keeps every other attribute, the other accounts are as they
    were, and the account is not validated, so the call succeeds whatever
    its names and email hold. *)
Theorem updateUserImage_sets_only_image E (user r : row) path url w :
  find_row "id" (prop user "id") (db w) = Some r ->
  uploadUserImage E r path = Some url ->
  let r' := <["image_url" := VString url]> r in
  let table := rewrite_row (prop user "id") r' (db w) in
  updateUserImage E user path w =
    (Ok r',
     {| db := table;
        next_id := next_id w;
        trace := trace w ++ [EvGet (prop user "id"); EvUpload r path;
                             EvSave r'] |}) /\
  find_row "id" (prop user "id") table = Some r' /\
  (forall k, k ≠ "image_url" -> r' !! k = r !! k) /\
  (forall j, j ≠ prop user "id" -> find_row "id" j table = find_row "id" j (db w)).
Proof.
  intros Hget Hup r' table.
  destruct (find_row_Some _ _ _ _ Hget) as [_ Hid].
  assert (r' !! "id" = Some (prop user "id")) as Hid'
    by (unfold r'; by rewrite lookup_insert_ne).
  split; [|split; [|split]].
  - unfold updateUserImage, queries_get, files_uploadUserImage. run.
    rewrite Hget. run. rewrite Hup. fold r'. unfold save. rewrite Hid'.
    cbn [db next_id trace emit]. by rewrite <- !app_assoc.
  - unfold table.
    by rewrite (find_id_rewrite_row _ _ _ _ Hid'), decide_True, Hget.
  - intros k Hk. unfold r'. by rewrite lookup_insert_ne.
  - intros j Hj. unfold table.
    by rewrite (find_id_rewrite_row _ _ _ _ Hid'), decide_False.
Qed.

Lemma updateUserImage_sets_only_image_witness :
  find_row "id" (prop bob "id") (db fixture_world) = Some bob /\
  updateUserImage newcomer_env bob "/tmp/new.png" fixture_world =
    (Ok (<["image_url" := VString "http://cdn/3"]> bob),
     {| db := [alice; <["image_url" := VString "http://cdn/3"]> bob];
        next_id := 3;
        trace := [EvGet (VNumber 2); EvUpload bob "/tmp/new.png";
                  EvSave (<["image_url" := VString "http://cdn/3"]> bob)] |}).
Proof.
  split; [reflexivity|].
  exact (proj1 (updateUserImage_sets_only_image newcomer_env bob bob
                  "/tmp/new.png" "http://cdn/3" fixture_world
                  eq_refl eq_refl)).
Defined.

(** X7.  [updateUserImage] fails closed.  When no account has the id it
    raises the store's not-found error and the upload is never attempted;
    when the upload is rejected it raises after the read and the upload,
    and nothing is saved.  In both cases the table is as it was. *)
Theorem updateUserImage_failures E (user : row) path w :
  (find_row "id" (prop user "id") (db w) = None ->
     updateUserImage E user path w =
       (Throw RecordNotFound, emit (EvGet (prop user "id")) w)) /\
  (forall r,
     find_row "id" (prop user "id") (db w) = Some r ->
     uploadUserImage E r path = None ->
     updateUserImage E user path w =
       (Throw UploadError,
        emit (EvUpload r path) (emit (EvGet (prop user "id")) w))).
Proof.
  split.
  - intros Hget. unfold updateUserImage, queries_get. run. by rewrite Hget.
  - intros r Hget Hup.
    unfold updateUserImage, queries_get, files_uploadUserImage. run.
    rewrite Hget. run. by rewrite Hup.
Qed.

Lemma updateUserImage_failures_witness :
  find_row "id" (prop bob "id") (db fixture_world) = Some bob /\
  uploadUserImage moved_env bob "/tmp/new.png" = None /\
  updateUserImage moved_env bob "/tmp/new.png" fixture_world =
    (Throw UploadError,
     emit (EvUpload bob "/tmp/new.png") (emit (EvGet (VNumber 2)) fixture_world)).
Proof.
  split; [reflexivity|]. split; [reflexivity|].
  exact (proj2 (updateUserImage_failures moved_env bob "/tmp/new.png"
                  fixture_world) bob eq_refl eq_refl).
Defined.

(** X8.  The provider is asked before the store is touched: when the
    Google token exchange or profile fetch is rejected, or the Facebook
    profile fetch is rejected, the sign-in raises with the world exactly
    as it was, no lookup having been made. *)
Theorem provider_failure_touches_nothing E w :
  (forall code, getOauth2 E code = None ->
     signInWithGoogle E code w = (Throw ProviderError, w)) /\
  (forall code tok, getOauth2 E code = Some tok -> userinfo_get E tok = None ->
     signInWithGoogle E code w = (Throw ProviderError, w)) /\
  (forall token, facebook_api_me E token = None ->
     signInWithFacebook E token w = (Throw ProviderError, w)).
Proof.
  split; [|split].
  - intros code H. unfold signInWithGoogle. run. by rewrite H.
  - intros code tok H1 H2. unfold signInWithGoogle. run. rewrite H1. run.
    by rewrite H2.
  - intros token H. unfold signInWithFacebook. run. by rewrite H.
Qed.

Lemma provider_failure_touches_nothing_witness :
  facebook_api_me offline_env "token" = None /\
  signInWithFacebook offline_env "token" fixture_world =
    (Throw ProviderError, fixture_world).
Proof.
  split; [reflexivity|].
  exact (proj2 (proj2 (provider_failure_touches_nothing offline_env
                         fixture_world)) "token" eq_refl).
Defined.

Lemma find_id_fresh w :
  wf_world w -> find_row "id" (VNumber (next_id w)) (db w) = None.
Proof.
  intros Hwf.
  destruct (find_row "id" (VNumber (next_id w)) (db w)) as [r|] eqn:Hf; [|done].
  destruct (find_row_Some _ _ _ _ Hf) as [Hin Hid].
  destruct (wf_world_row_id _ _ Hwf Hin) as (n & Hn & Hlt).
  rewrite Hid in Hn. injection Hn as <-. lia.
Qed.

Lemma prop_lookup (o : row) k v : o !! k = Some v -> prop o k = v.
Proof. unfold prop. by intros ->. Qed.

(** X9.  What a sign-in returns is what the store holds: on a store with
    unique ids, the account a sign-in returns, whether linked, found by
    external id or created, is the one [getUser] then answers for that
    account's id. *)
Theorem signed_in_account_is_stored E t P flow w acct :
  signs_in E t P flow ->
  store_ok w ->
  fst (flow w) = Ok acct ->
  getUser (prop acct "id") (snd (flow w)) =
    (Ok acct, emit (EvGet (prop acct "id")) (snd (flow w))).
Proof.
  intros Hflow [Hwf Hnd].
  rewrite (signs_in_signIn _ _ _ _ Hflow).
  unfold getUser, queries_get.
  destruct (find_row "email" (c_email P) (db w)) as [a|] eqn:Hemail.
  - destruct (find_row_Some _ _ _ _ Hemail) as [Hin _].
    destruct (wf_world_row_id _ _ Hwf Hin) as (n & Hid & _).
    rewrite (signIn_found_by_email _ _ _ _ _ Hemail).
    rewrite (link_existing _ _ _ _ _ Hid). cbn [fst snd db emit].
    intros [= <-].
    set (a' := <[external_id_key t := c_external_id P]> a).
    assert (a' !! "id" = Some (VNumber n)) as Hid'.
    { unfold a'. rewrite lookup_insert_ne; [done | by destruct t]. }
    rewrite (prop_lookup _ _ _ Hid').
    rewrite (find_id_rewrite_row _ _ _ _ Hid'), decide_True by done.
    by destruct (find_row_is_Some "id" (VNumber n) _ _ Hin Hid) as [x ->].
  - destruct (find_row (external_id_key t) (c_external_id P) (db w))
      as [b|] eqn:Hext.
    + rewrite (signIn_found_by_external_id _ _ _ _ _ Hemail Hext).
      cbn [fst snd db emit]. intros [= <-].
      destruct (find_row_Some _ _ _ _ Hext) as [Hin _].
      destruct (wf_world_row_id _ _ Hwf Hin) as (n & Hid & _).
      rewrite (prop_lookup _ _ _ Hid).
      by rewrite (find_id_unique _ _ _ Hnd Hin Hid).
    + rewrite (signIn_not_found _ _ _ _ Hemail Hext).
      destruct (ingestion_cases E t P) as [(src & path & url & Hs & Hd & Hu)|Hf].
      * rewrite (materialize_ok _ _ _ _ _ _ _ Hs Hd Hu).
        cbn [fst snd db next_id emit]. intros [= <-].
        destruct (created_account_lookup E t P url (next_id w)) as (Hid & _).
        rewrite (prop_lookup _ _ _ Hid).
        rewrite find_row_snoc, (find_id_fresh _ Hwf).
        by rewrite (proj2 (matches_true _ _ _) Hid).
      * match goal with |- context [materialize E t P ?w0] =>
          destruct (materialize_fails E t P w0 Hf) as (e & w' & -> & _)
        end.
        discriminate.
Qed.

Lemma signed_in_account_is_stored_witness :
  store_ok fixture_world /\
  fst (signInWithGoogle moved_env "code" fixture_world) = Ok bob /\
  getUser (prop bob "id") (snd (signInWithGoogle moved_env "code" fixture_world)) =
    (Ok bob,
     emit (EvGet (prop bob "id"))
       (snd (signInWithGoogle moved_env "code" fixture_world))).
Proof.
  split; [exact fixture_store_ok|]. split; [reflexivity|].
  exact (signed_in_account_is_stored moved_env Google _ _ fixture_world bob
           (signs_in_google moved_env "code" "code" moved_google
              eq_refl eq_refl)
           fixture_store_ok eq_refl).
Defined.

(** X10.  The external-id lookup is the fallback once the email has
    changed at the provider: after a sign-in has created an account, a
    later sign-in for the same provider with the same external id and an
    email that no stored account holds returns that account and leaves
    the table as it was. *)
Theorem created_account_found_by_external_id E E' t P P' flow flow' w acct :
  signs_in E t P flow ->
  signs_in E' t P' flow' ->
  find_row "email" (c_email P) (db w) = None ->
  find_row (external_id_key t) (c_external_id P) (db w) = None ->
  fst (flow w) = Ok acct ->
  c_external_id P' = c_external_id P ->
  find_row "email" (c_email P') (db (snd (flow w))) = None ->
  fst (flow' (snd (flow w))) = Ok acct /\
  db (snd (flow' (snd (flow w)))) = db (snd (flow w)).
Proof.
  intros Hflow Hflow' Hemail Hext.
  rewrite (signs_in_signIn _ _ _ _ Hflow).
  rewrite (signIn_not_found _ _ _ _ Hemail Hext).
  destruct (ingestion_cases E t P) as [(src & path & url & Hs & Hd & Hu)|Hf].
  - rewrite (materialize_ok _ _ _ _ _ _ _ Hs Hd Hu).
    cbn [fst snd db next_id emit]. intros [= <-] Hsame Hemail'.
    destruct (created_account_lookup E t P url (next_id w)) as (_ & _ & Hkey).
    rewrite (signs_in_signIn _ _ _ _ Hflow').
    erewrite signIn_found_by_external_id; [done | exact Hemail' |].
    cbn [db]. rewrite Hsame, find_row_snoc, Hext.
    by rewrite (proj2 (matches_true _ _ _) Hkey).
  - match goal with |- context [materialize E t P ?w0] =>
      destruct (materialize_fails E t P w0 Hf) as (e & w' & -> & _)
    end.
    discriminate.
Qed.

Lemma created_account_found_by_external_id_witness :
  fst (signInWithGoogle newcomer_env "code" fixture_world) =
    Ok (created_account newcomer_env Google (normalize_google newcomer_google)
          "http://cdn/3" 3) /\
  find_row "email" (VString "renamed@x.com")
    (db (snd (signInWithGoogle newcomer_env "code" fixture_world))) = None /\
  fst (signInWithGoogle renamed_newcomer_env "code"
         (snd (signInWithGoogle newcomer_env "code" fixture_world))) =
    Ok (created_account newcomer_env Google (normalize_google newcomer_google)
          "http://cdn/3" 3) /\
  db (snd (signInWithGoogle renamed_newcomer_env "code"
             (snd (signInWithGoogle newcomer_env "code" fixture_world)))) =
    db (snd (signInWithGoogle newcomer_env "code" fixture_world)).
Proof.
  split; [reflexivity|]. split; [reflexivity|].
  exact (created_account_found_by_external_id newcomer_env renamed_newcomer_env
           Google _ _ _ _ fixture_world _
           (signs_in_google newcomer_env "code" "code" newcomer_google
              eq_refl eq_refl)
           (signs_in_google renamed_newcomer_env "code" "code"
              renamed_newcomer_google eq_refl eq_refl)
           eq_refl eq_refl eq_refl eq_refl eq_refl).
Defined.

Lemma materialize_failure_stages E t P w :
  match c_avatar_source P with
  | None => materialize E t P w = (Throw TypeError, w)
  | Some src =>
      match downloadFileFromUrl E src with
      | None =>
          materialize E t P w = (Throw DownloadError, emit (EvDownload src) w)
      | Some path =>
          uploadUserImage E (unsaved_account E t P) path = None ->
          materialize E t P w =
            (Throw UploadError,
             emit (EvUpload (unsaved_account E t P) path)
               (emit (EvDownload src) w))
      end
  end.
Proof.
  unfold materialize, files_downloadFileFromUrl, files_uploadUserImage. run.
  destruct (c_avatar_source P) as [src|]; [|done].
  destruct (downloadFileFromUrl E src) as [path|]; [|done].
  by intros ->.
Qed.

(** X11.  In the creation branch a failure is raised at the step that
    fails and the later steps are not attempted.  The Google flow hands
    whatever the payload's [picture] holds, [undefined] included, to the
    download; the Facebook flow raises on a payload without [picture]
    object before any call to the pipeline.  In both flows a rejected
    download raises without the upload being called, and a rejected
    upload raises after both calls.  The save is reached in none of these
    cases. *)
Theorem ingestion_failure_stages E w :
  (forall code tok p,
     getOauth2 E code = Some tok ->
     userinfo_get E tok = Some p ->
     find_row "email" (g_email p) (db w) = None ->
     find_row "google_id" (g_id p) (db w) = None ->
     let looked_up :=
       emit (EvFind "google_id" (g_id p)) (emit (EvFind "email" (g_email p)) w) in
     let owner := unsaved_account E Google (normalize_google p) in
     match downloadFileFromUrl E (g_picture p) with
     | None =>
         signInWithGoogle E code w =
           (Throw DownloadError, emit (EvDownload (g_picture p)) looked_up)
     | Some path =>
         uploadUserImage E owner path = None ->
         signInWithGoogle E code w =
           (Throw UploadError,
            emit (EvUpload owner path)
              (emit (EvDownload (g_picture p)) looked_up))
     end) /\
  (forall token p,
     facebook_api_me E token = Some p ->
     find_row "email" (fb_email p) (db w) = None ->
     find_row "facebook_id" (fb_id p) (db w) = None ->
     let looked_up :=
       emit (EvFind "facebook_id" (fb_id p))
         (emit (EvFind "email" (fb_email p)) w) in
     let owner := unsaved_account E Facebook (normalize_facebook p) in
     match fb_picture p with
     | None => signInWithFacebook E token w = (Throw TypeError, looked_up)
     | Some src =>
         match downloadFileFromUrl E src with
         | None =>
             signInWithFacebook E token w =
               (Throw DownloadError, emit (EvDownload src) looked_up)
         | Some path =>
             uploadUserImage E owner path = None ->
             signInWithFacebook E token w =
               (Throw UploadError,
                emit (EvUpload owner path) (emit (EvDownload src) looked_up))
         end
     end).
Proof.
  split.
  - intros code tok p Htok Hp Hemail Hext looked_up owner.
    rewrite (signInWithGoogle_signIn _ _ _ _ _ Htok Hp).
    rewrite (signIn_not_found E Google (normalize_google p) w Hemail Hext).
    exact (materialize_failure_stages E Google (normalize_google p) looked_up).
  - intros token p Hp Hemail Hext looked_up owner.
    rewrite (signInWithFacebook_signIn _ _ _ _ Hp).
    rewrite (signIn_not_found E Facebook (normalize_facebook p) w Hemail Hext).
    exact (materialize_failure_stages E Facebook (normalize_facebook p)
             looked_up).
Qed.

Lemma ingestion_failure_stages_witness :
  find_row "email" (VString "nopic@x.com") (db fixture_world) = None /\
  find_row "google_id" (VString "g4") (db fixture_world) = None /\
  find_row "facebook_id" (VString "f4") (db fixture_world) = None /\
  signInWithGoogle pictureless_env "code" fixture_world =
    (Throw DownloadError,
     {| db := [alice; bob];
        next_id := 3;
        trace := [EvFind "email" (VString "nopic@x.com");
                  EvFind "google_id" (VString "g4");
                  EvDownload VUndefined] |}) /\
  signInWithFacebook pictureless_env "token" fixture_world =
    (Throw TypeError,
     {| db := [alice; bob];
        next_id := 3;
        trace := [EvFind "email" (VString "nopic@x.com");
                  EvFind "facebook_id" (VString "f4")] |}).
Proof.
  split; [reflexivity|]. split; [reflexivity|]. split; [reflexivity|].
  pose proof (ingestion_failure_stages pictureless_env fixture_world)
    as [Hg Hf].
  split.
  - exact (Hg "code" "code" pictureless_google eq_refl eq_refl eq_refl eq_refl).
  - exact (Hf "token" pictureless_facebook eq_refl eq_refl eq_refl).
Defined.



(** X13.  A patch with none of the allow-listed attributes changes
    nothing: on a store with unique ids and a stored account whose three
    validated fields are non-empty strings, [updateUser] returns the
    stored account and the table is as it was, whatever else the patch
    holds. *)
Theorem updateUser_without_allowed_attrs (user data r : row) w :
  store_ok w ->
  find_row "id" (prop user "id") (db w) = Some r ->
  (forall k, k ∈ ALLOWED_ATTRS_TO_UPDATE -> data !! k = None) ->
  non_empty_string (r !! "first_name") ->
  non_empty_string (r !! "last_name") ->
  non_empty_string (r !! "email") ->
  updateUser user data w =
    (Ok r,
     {| db := db w;
        next_id := next_id w;
        trace := trace w ++ [EvGet (prop user "id"); EvSave r] |}).
Proof.
  intros [_ Hnd] Hget Hdata H1 H2 H3.
  assert (set (pick data ALLOWED_ATTRS_TO_UPDATE) r = r) as Hsame.
  { apply map_eq. intros k. rewrite set_lookup, pick_lookup.
    case_decide as Hk; [by rewrite (Hdata k Hk) | done]. }
  rewrite (updateUser_ok _ _ _ _ Hget); rewrite Hsame;
    try by apply non_empty_string_accepted.
  by rewrite (rewrite_row_same _ _ _ Hnd Hget).
Qed.

Lemma updateUser_without_allowed_attrs_witness :
  store_ok fixture_world /\
  updateUser alice role_only fixture_world =
    (Ok alice,
     {| db := [alice; bob];
        next_id := 3;
        trace := [EvGet (VNumber 1); EvSave alice] |}).
Proof.
  split; [exact fixture_store_ok|].
  refine (updateUser_without_allowed_attrs alice role_only alice fixture_world
            fixture_store_ok eq_refl _ _ _ _).
  - intros k Hk. unfold ALLOWED_ATTRS_TO_UPDATE in Hk.
    repeat (apply elem_of_cons in Hk as [-> | Hk]; [reflexivity|]).
    by apply elem_of_nil in Hk.
  - eexists; split; [reflexivity | discriminate].
  - eexists; split; [reflexivity | discriminate].
  - eexists; split; [reflexivity | discriminate].
Defined.

(** X14.  Linking an account that already carries the payload's external
    id changes nothing: on a store with unique ids, a sign-in that
    resolves by email to an account whose external id for the provider is
    already the payload's returns that account and leaves the table and
    the id counter as they were. *)
Theorem relink_same_id_changes_nothing E t P flow w (a : row) :
  signs_in E t P flow ->
  store_ok w ->
  find_row "email" (c_email P) (db w) = Some a ->
  a !! external_id_key t = Some (c_external_id P) ->
  fst (flow w) = Ok a /\
  db (snd (flow w)) = db w /\
  next_id (snd (flow w)) = next_id w.
Proof.
  intros Hflow [Hwf Hnd] Hemail Hkey.
  rewrite (signs_in_signIn _ _ _ _ Hflow).
  destruct (find_row_Some _ _ _ _ Hemail) as [Hin _].
  destruct (wf_world_row_id _ _ Hwf Hin) as (n & Hid & _).
  rewrite (signIn_found_by_email _ _ _ _ _ Hemail).
  rewrite (link_existing _ _ _ _ _ Hid). cbn [fst snd db next_id emit].
  rewrite (insert_id _ _ _ Hkey). repeat split.
  apply rewrite_row_same; [done|]. by apply find_id_unique.
Qed.

Lemma relink_same_id_changes_nothing_witness :
  store_ok fixture_world /\
  find_row "email" (VString "a@x.com") (db fixture_world) = Some alice /\
  alice !! "google_id" = Some (VString "g1") /\
  fst (signInWithGoogle alice_google_env "code" fixture_world) = Ok alice /\
  db (snd (signInWithGoogle alice_google_env "code" fixture_world)) =
    [alice; bob] /\
  next_id (snd (signInWithGoogle alice_google_env "code" fixture_world)) = 3.
Proof.
  split; [exact fixture_store_ok|]. split; [reflexivity|].
  split; [reflexivity|].
  exact (relink_same_id_changes_nothing alice_google_env Google _ _
           fixture_world alice
           (signs_in_google alice_google_env "code" "code" alice_google
              eq_refl eq_refl)
           fixture_store_ok eq_refl eq_refl).
Defined.

Lemma find_id_kept_by_rewrite i j (r : row) rows :
  r !! "id" = Some i ->
  is_Some (find_row "id" j rows) ->
  is_Some (find_row "id" j (rewrite_row i r rows)).
Proof.
  intros Hr Hj. rewrite (find_id_rewrite_row _ _ _ _ Hr).
  case_decide as Hij; [|done]. subst j. by destruct Hj as [x ->].
Qed.

Lemma find_kept_by_app k v rows tail :
  is_Some (find_row k v rows) -> is_Some (find_row k v (rows ++ tail)).
Proof. intros [x Hx]. exists x. by apply find_row_app_l. Qed.

Lemma save_keeps_ids (r : row) w j :
  is_Some (find_row "id" j (db w)) ->
  is_Some (find_row "id" j (db (snd (save r w)))).
Proof.
  intros Hj. unfold save. destruct (r !! "id") as [i|] eqn:Hid; cbn [snd db].
  - by apply find_id_kept_by_rewrite.
  - by apply find_kept_by_app.
Qed.

Lemma signIn_keeps_ids E t P w j :
  is_Some (find_row "id" j (db w)) ->
  is_Some (find_row "id" j (db (snd (signIn E t P w)))).
Proof.
  intros Hj.
  destruct (find_row "email" (c_email P) (db w)) as [a|] eqn:Hemail.
  - rewrite (signIn_found_by_email _ _ _ _ _ Hemail). unfold link.
    by apply save_keeps_ids.
  - destruct (find_row (external_id_key t) (c_external_id P) (db w))
      as [b|] eqn:Hext.
    + by rewrite (signIn_found_by_external_id _ _ _ _ _ Hemail Hext).
    + rewrite (signIn_not_found _ _ _ _ Hemail Hext).
      match goal with |- context [materialize E t P ?w0] =>
        destruct (materialize_grows E t P w0) as (tail & -> & _)
      end.
      cbn [db emit]. by apply find_kept_by_app.
Qed.

(** X15.  No operation removes an account: an id under which the store
    answers an account before a sign-in, an [updateUser] or an
    [updateUserImage] is still answered after it, whatever the arguments,
    the collaborators' answers and the outcome. *)
Theorem accounts_are_never_removed E w j :
  is_Some (find_row "id" j (db w)) ->
  (forall code,
     is_Some (find_row "id" j (db (snd (signInWithGoogle E code w))))) /\
  (forall token,
     is_Some (find_row "id" j (db (snd (signInWithFacebook E token w))))) /\
  (forall user data,
     is_Some (find_row "id" j (db (snd (updateUser user data w))))) /\
  (forall user path,
     is_Some (find_row "id" j (db (snd (updateUserImage E user path w))))).
Proof.
  intros Hj. split; [|split; [|split]].
  - intros code.
    destruct (getOauth2 E code) as [tok|] eqn:Htok.
    1: destruct (userinfo_get E tok) as [p|] eqn:Hp.
    1: { rewrite (signInWithGoogle_signIn _ _ _ _ _ Htok Hp).
         by apply signIn_keeps_ids. }
    all: unfold signInWithGoogle; run; rewrite Htok; run; by rewrite ?Hp.
  - intros token.
    destruct (facebook_api_me E token) as [p|] eqn:Hp.
    + rewrite (signInWithFacebook_signIn _ _ _ _ Hp).
      by apply signIn_keeps_ids.
    + unfold signInWithFacebook. run. by rewrite Hp.
  - intros user data. unfold updateUser, queries_get, validateUser. run.
    destruct (find_row "id" (prop user "id") (db w)) as [r|]; [|done].
    run. set (merged := set _ r).
    destruct (negb (truthy (prop merged "first_name")) || _); [done|].
    destruct (negb (truthy (prop merged "last_name")) || _); [done|].
    destruct (negb (truthy (prop merged "email")) || _); [done|].
    by apply save_keeps_ids.
  - intros user path.
    unfold updateUserImage, queries_get, files_uploadUserImage. run.
    destruct (find_row "id" (prop user "id") (db w)) as [r|]; [|done].
    run. destruct (uploadUserImage E r path) as [url|]; [|done].
    by apply save_keeps_ids.
Qed.

Lemma accounts_are_never_removed_witness :
  is_Some (find_row "id" (VNumber 2) (db fixture_world)) /\
  is_Some (find_row "id" (VNumber 2)
             (db (snd (signInWithGoogle relinking_env "code" fixture_world)))) /\
  is_Some (find_row "id" (VNumber 2)
             (db (snd (updateUser bob empty_first_name fixture_world)))).
Proof.
  assert (is_Some (find_row "id" (VNumber 2) (db fixture_world))) as H
    by (by exists bob).
  split; [exact H|].
  pose proof (accounts_are_never_removed relinking_env fixture_world
                (VNumber 2) H) as (Hg & _ & Hu & _).
  split; [exact (Hg "code") | exact (Hu bob empty_first_name)].
Defined.

Lemma calls_of_app w w' (evs : list event) :
  trace w' = (trace w ++ evs)%list -> calls_of w w' = evs.
Proof.
  unfold calls_of. intros ->.
  rewrite skipn_app, skipn_all, Nat.sub_diag. done.
Qed.

(** X16.  The avatar pipeline is called only to create: whenever the
    email lookup or, failing it, the external-id lookup finds an account,
    the sign-in makes no download and no upload, so the avatar of an
    existing account is never fetched again from the provider. *)
Theorem existing_account_is_not_ingested E t P flow w :
  signs_in E t P flow ->
  is_Some (find_row "email" (c_email P) (db w)) \/
  is_Some (find_row (external_id_key t) (c_external_id P) (db w)) ->
  List.filter is_ingest (calls_of w (snd (flow w))) = [].
Proof.
  intros Hflow Hfound.
  rewrite (signs_in_signIn _ _ _ _ Hflow).
  destruct (find_row "email" (c_email P) (db w)) as [a|] eqn:Hemail.
  - rewrite (signIn_found_by_email _ _ _ _ _ Hemail). unfold link, save.
    destruct (_ !! "id"); cbn [snd];
      (erewrite calls_of_app;
       [|cbn [trace emit]; rewrite <- app_assoc; reflexivity]); done.
  - destruct Hfound as [[x Hx]|[b Hext]]; [done|].
    rewrite (signIn_found_by_external_id _ _ _ _ _ Hemail Hext). cbn [snd].
    erewrite calls_of_app;
      [|cbn [trace emit]; rewrite <- app_assoc; reflexivity].
    done.
Qed.

Lemma existing_account_is_not_ingested_witness :
  is_Some (find_row "email" (VString "a@x.com") (db fixture_world)) /\
  List.filter is_ingest
    (calls_of fixture_world
       (snd (signInWithGoogle crossed_env "code" fixture_world))) = [].
Proof.
  assert (is_Some (find_row "email" (VString "a@x.com") (db fixture_world)))
    as H by (by exists alice).
  split; [exact H|].
  exact (existing_account_is_not_ingested crossed_env Google _ _ fixture_world
           (signs_in_google crossed_env "code" "code" crossed_google
              eq_refl eq_refl)
           (or_introl H)).
Defined.
